(** * batools.appmodule: generation of babase._app.py

    A shallow embedding of [src/tools/batools/appmodule.py] together with
    the properties of its two core mechanisms: the dependency-ordered
    initialisation sequencer ([_add_init]) and the marker-delimited
    section rewriter used by [generate_app_module]. *)

From Stdlib Require Import ZArith Lia.
From stdpp Require Import base tactics option list sorting strings relations.

Local Open Scope Z_scope.

(** ** Python values

    A [dict] is embedded as the list of its items in iteration (insertion)
    order, a [set] of strings as the list of its members in iteration
    order.  Keys of a dict are unique and a set has no repeated member;
    the iteration order of a set is unspecified, so nothing may depend on
    it.  Strings are byte strings: the bytewise lexicographic order of
    UTF-8 text is the code point order Python uses to compare [str]. *)
Module Py.

Definition dict (V : Type) : Type := list (string * V).

(** [d.get(k)] *)
Fixpoint get {V} (d : dict V) (k : string) : option V :=
  match d with
  | [] => None
  | (k', v) :: rest => if decide (k' = k) then Some v else get rest k
  end.

(** [d.keys()], [d.values()] *)
Definition keys {V} (d : dict V) : list string := d.*1.
Definition values {V} (d : dict V) : list V := d.*2.

(** [k in d] *)
Definition contains {V} (d : dict V) (k : string) : bool :=
  bool_decide (k ∈ keys d).

(** [sorted(s)] for an iterable of strings. *)
Definition sorted (l : list string) : list string :=
  merge_sort String.le l.

(** The order of [sorted(d.items())]: items are compared as tuples, and
    since no two items of a dict share a key the comparison is always
    settled by the keys. *)
Definition item_le {V} (p q : string * V) : Prop := String.le p.1 q.1.

#[global] Instance item_le_dec {V} : RelDecision (@item_le V).
Proof. intros p q. unfold item_le. apply _. Defined.

Definition sorted_items {V} (d : dict V) : list (string * V) :=
  merge_sort item_le d.

(** [s.add(x)] and [s | t] on sets. *)
Definition set_add (s : list string) (x : string) : list string :=
  if bool_decide (x ∈ s) then s else s ++ [x].

Definition set_union (s t : list string) : list string :=
  foldl set_add s t.

(** [{k: v for k, v in d.items() if p(v)}] *)
Definition filter_values {V} (p : V → bool) (d : dict V) : dict V :=
  List.filter (λ kv, p kv.2) d.

End Py.

(** ** Exceptions and outcomes *)

Inductive exn : Type :=
  | RuntimeError (msg : string)
  | AssertionError
  | KeyError (key : string).

(** What a call that mutates [init_order] in place leaves behind: the
    list as it stands when the call returns, or as it stands when the
    exception leaves the call. *)
Inductive outcome : Type :=
  | Returned (init_order : list string)
  | Raised (e : exn) (init_order : list string).

Definition order_of (o : outcome) : list string :=
  match o with
  | Returned l => l
  | Raised _ l => l
  end.

(** ** Feature sets

    Modelled from the spec: the class [batools.featureset.FeatureSet] is
    not part of the sources at hand; a feature set is a named component
    (its name is its key in the dependency map) carrying the attributes
    that [appmodule.py] reads. *)
Record FeatureSet : Type := {
  name : string;
  name_camel : string;
  name_python_package : string;
  has_python_app_subsystem : bool;
  allow_as_soft_requirement : bool;
  soft_requirements : list string;
  python_app_subsystem_dependencies : list string
}.

(** ** _add_init *)

(** A [for] loop whose body updates [init_order]; an exception raised by
    the body ends the loop.  [None] means the evaluation ran out of
    fuel. *)
Fixpoint for_each {A} (body : A → list string → option outcome)
    (xs : list A) (init_order : list string) : option outcome :=
  match xs with
  | [] => Some (Returned init_order)
  | x :: rest =>
      match body x init_order with
      | Some (Returned init_order') => for_each body rest init_order'
      | r => r
      end
  end.

Definition cycle_message (fsname : string) : string :=
  "App subsystem dependency cycle detected" +:+
  " (involving feature set '" +:+ fsname +:+ "').".

(** [_add_init(fset, allsets, init_order, depth)].  The recursion of the
    Python function is general; [fuel] bounds the number of nested calls
    the evaluation may make. *)
Fixpoint _add_init (fuel : nat) (fset : FeatureSet)
    (allsets : Py.dict FeatureSet) (init_order : list string) (depth : Z)
    : option outcome :=
  match fuel with
  | O => None
  | S fuel =>
      if bool_decide (depth > 10) then
        Some (Raised (RuntimeError (cycle_message (name fset))) init_order)
      else if bool_decide (name fset ∈ init_order) then
        Some (Returned init_order)
      else
        match
          for_each
            (λ depname init_order,
               match Py.get allsets depname with
               | None => Some (Returned init_order)
               | Some depfset =>
                   _add_init fuel depfset allsets init_order (depth + 1)
               end)
            (Py.sorted (python_app_subsystem_dependencies fset))
            init_order
        with
        | Some (Returned init_order) =>
            if bool_decide (name fset ∈ init_order) then
              Some (Raised AssertionError init_order)
            else
              Some (Returned (init_order ++ [name fset]))
        | r => r
        end
  end.

(** The loop of [generate_app_module] that builds [init_order]:
    [for fsetname, fset in sorted(all_ss_fsets.items()):
       _add_init(fset, all_ss_fsets, init_order, 0)]. *)
Definition build_init_order (fuel : nat) (all_ss_fsets : Py.dict FeatureSet)
    : option outcome :=
  for_each
    (λ item init_order, _add_init fuel item.2 all_ss_fsets init_order 0)
    (Py.sorted_items all_ss_fsets)
    [].

(** ** generate_app_module *)

Definition nl : string :=
  Eval cbv in String (Ascii.ascii_of_nat 10%nat) EmptyString.
Definition dq : string :=
  Eval cbv in String (Ascii.ascii_of_nat 34%nat) EmptyString.
Definition dq3 : string := dq +:+ dq +:+ dq.

(** [info], with [__name__] being [batools.appmodule]. *)
Definition info : string :=
  "# This section generated by batools.appmodule; do not edit.".

(** Import modules we need for feature-set subsystems. *)
Definition imports_contents (fsets : Py.dict FeatureSet) : string :=
  foldl
    (λ contents item,
       let fset := item.2 in
       if has_python_app_subsystem fset then
         contents +:+ "from " +:+ name_python_package fset +:+ " import " +:+
           (name_camel fset +:+ "Subsystem") +:+ nl
       else contents)
    EmptyString
    (Py.sorted_items fsets).

(** Which feature-sets are soft-required by any of the ones here but not
    included here. *)
Definition missing_soft_fset_names (fsets : Py.dict FeatureSet)
    : list string :=
  foldl
    (λ missing fset,
       foldl
         (λ missing softreq,
            if Py.contains fsets softreq then missing
            else Py.set_add missing softreq)
         missing
         (soft_requirements fset))
    []
    (Py.values fsets).

Definition missing_property (fsetname : string) : string :=
  nl +:+
  "@cached_property" +:+ nl +:+
  "def " +:+ fsetname +:+ "(self) -> Any | None:" +:+ nl +:+
  "    " +:+ dq3 +:+ "Our " +:+ fsetname +:+ " subsystem (not available" +:+
  " in this project)." +:+ dq3 +:+ nl +:+
  nl +:+
  "    return None" +:+ nl.

Definition soft_property (fset : FeatureSet) : string :=
  let modname := name_python_package fset in
  let classname := name_camel fset +:+ "Subsystem" in
  nl +:+
  "@cached_property" +:+ nl +:+
  "def " +:+ name fset +:+ "(self) -> " +:+ classname +:+ " | None:" +:+ nl +:+
  "    " +:+ dq3 +:+ "Our " +:+ name fset +:+ " subsystem (if available)." +:+
  dq3 +:+ nl +:+
  "    # pylint: disable=cyclic-import" +:+ nl +:+
  nl +:+
  "    try:" +:+ nl +:+
  "        from " +:+ modname +:+ " import " +:+ classname +:+ nl +:+
  nl +:+
  "        return " +:+ classname +:+ "()" +:+ nl +:+
  "    except ImportError:" +:+ nl +:+
  "        return None" +:+ nl +:+
  "    except Exception:" +:+ nl +:+
  "        logging.exception('Error importing" +:+
  " " +:+ modname +:+ ".')" +:+ nl +:+
  "        return None" +:+ nl.

Definition hard_property (fset : FeatureSet) : string :=
  let modname := name_python_package fset in
  let classname := name_camel fset +:+ "Subsystem" in
  nl +:+
  "@cached_property" +:+ nl +:+
  "def " +:+ name fset +:+ "(self) -> " +:+ classname +:+ ":" +:+ nl +:+
  "    " +:+ dq3 +:+ "Our " +:+ name fset +:+ " subsystem" +:+
  " (always available)." +:+ dq3 +:+ nl +:+
  "    # pylint: disable=cyclic-import" +:+ nl +:+
  nl +:+
  "    from " +:+ modname +:+ " import " +:+ classname +:+ nl +:+
  nl +:+
  "    return " +:+ classname +:+ "()" +:+ nl.

(** The text one iteration of the properties loop appends to [contents];
    [fsets[fsetname]] raises [KeyError] on an absent key. *)
Definition property_for (fsets : Py.dict FeatureSet)
    (missing : list string) (fsetname : string) : exn + string :=
  if bool_decide (fsetname ∈ missing) then inr (missing_property fsetname)
  else
    match Py.get fsets fsetname with
    | None => inl (KeyError fsetname)
    | Some fset =>
        if has_python_app_subsystem fset then
          if allow_as_soft_requirement fset then inr (soft_property fset)
          else inr (hard_property fset)
        else inr EmptyString
    end.

Fixpoint properties_loop (fsets : Py.dict FeatureSet)
    (missing : list string) (fsetnames : list string) (contents : string)
    : exn + string :=
  match fsetnames with
  | [] => inr contents
  | fsetname :: rest =>
      match property_for fsets missing fsetname with
      | inl e => inl e
      | inr text => properties_loop fsets missing rest (contents +:+ text)
      end
  end.

(** Add properties to instantiate feature-set subsystems. *)
Definition properties_contents (fsets : Py.dict FeatureSet) : exn + string :=
  let missing := missing_soft_fset_names fsets in
  let all_fset_names := Py.set_union missing (Py.keys fsets) in
  properties_loop fsets missing (Py.sorted all_fset_names) EmptyString.

(** Code to create app subsystems in the proper order. *)
Definition create_contents (init_order : list string) : string :=
  "# Poke these attrs to create all our subsystems." +:+ nl +:+
  foldr (λ fsetname rest, ("_ = self." +:+ fsetname +:+ nl) +:+ rest)
    EmptyString init_order.

(** Default app-mode-selection logic. *)
Definition mode_contents (fsets : Py.dict FeatureSet) : string :=
  let contents :=
    "# Hmm; need to think about how we auto-construct this; how" +:+ nl +:+
    "# should we determine which app modes to check and in what" +:+ nl +:+
    "# order?" +:+ nl in
  let contents :=
    if Py.contains fsets "scene_v1"
    then contents +:+ "import bascenev1" +:+ nl +:+ nl else contents in
  let contents :=
    if Py.contains fsets "base"
    then contents +:+ "import babase" +:+ nl +:+ nl else contents in
  let contents :=
    if Py.contains fsets "scene_v1"
    then contents +:+
      "if bascenev1.SceneV1AppMode.can_handle_intent(intent):" +:+ nl +:+
      "    return bascenev1.SceneV1AppMode" +:+ nl +:+ nl
    else contents in
  let contents :=
    if Py.contains fsets "base"
    then contents +:+
      "if babase.EmptyAppMode.can_handle_intent(intent):" +:+ nl +:+
      "    return babase.EmptyAppMode" +:+ nl +:+ nl
    else contents in
  contents +:+
    "raise RuntimeError(f'No handler found for" +:+
    " intent {type(intent)}.')" +:+ nl.

(** One call of [efrotools.replace_section], as the generator makes it. *)
Record rs_call : Type := {
  rs_text : string;
  rs_begin_marker : string;
  rs_end_marker : string;
  rs_replace_text : string;
  rs_keep_markers : bool;
  rs_result : exn + string
}.

(** Computations of the generator: they record the calls made to
    [replace_section], may raise, and may run out of fuel ([None]). *)
Definition Gen (A : Type) : Type :=
  list rs_call → option (list rs_call * (exn + A)).

#[global] Instance gen_ret : MRet Gen := λ A x calls, Some (calls, inr x).

#[global] Instance gen_bind : MBind Gen := λ A B k m calls,
  match m calls with
  | None => None
  | Some (calls', inl e) => Some (calls', inl e)
  | Some (calls', inr x) => k x calls'
  end.

Definition gen_raise {A} (e : exn) : Gen A := λ calls, Some (calls, inl e).

Definition gen_lift {A} (r : exn + A) : Gen A := λ calls, Some (calls, r).

Section Generate.

(** [efrotools.replace_section] and [textwrap.indent] are taken as
    given: the first is another package of the repository, the second
    is the Python standard library. *)
Variable replace_section :
  string → string → string → string → bool → exn + string.
Variable textwrap_indent : string → string → string.

Definition call_replace_section (text begin_marker end_marker
    replace_text : string) (keep_markers : bool) : Gen string :=
  λ calls,
    let r := replace_section text begin_marker end_marker replace_text
               keep_markers in
    Some (calls ++ [{| rs_text := text; rs_begin_marker := begin_marker;
                       rs_end_marker := end_marker;
                       rs_replace_text := replace_text;
                       rs_keep_markers := keep_markers;
                       rs_result := r |}], r).

(** The [init_order] loop inside the generator. *)
Definition gen_init_order (fuel : nat) (all_ss_fsets : Py.dict FeatureSet)
    : Gen (list string) :=
  λ calls,
    match build_init_order fuel all_ss_fsets with
    | None => None
    | Some (Returned init_order) => Some (calls, inr init_order)
    | Some (Raised e _) => Some (calls, inl e)
    end.

Definition generate_app_module (fuel : nat)
    (feature_sets : Py.dict FeatureSet) (existing_data : string)
    : Gen string :=
  let fsets := feature_sets in
  let out := existing_data in
  let indent := "    " in
  let contents := imports_contents fsets in
  out ← call_replace_section out
    (indent +:+ "# __FEATURESET_APP_SUBSYSTEM_IMPORTS_BEGIN__" +:+ nl)
    (indent +:+ "# __FEATURESET_APP_SUBSYSTEM_IMPORTS_END__" +:+ nl)
    (textwrap_indent
       (if bool_decide (contents = EmptyString) then info +:+ nl
        else info +:+ nl +:+ nl +:+ contents +:+ nl)
       indent)
    true;
  contents ← gen_lift (properties_contents fsets);
  out ← call_replace_section out
    (indent +:+ "# __FEATURESET_APP_SUBSYSTEM_PROPERTIES_BEGIN__" +:+ nl)
    (indent +:+ "# __FEATURESET_APP_SUBSYSTEM_PROPERTIES_END__" +:+ nl)
    (textwrap_indent (info +:+ nl +:+ contents +:+ nl) indent)
    true;
  let all_ss_fsets := Py.filter_values has_python_app_subsystem fsets in
  init_order ← gen_init_order fuel all_ss_fsets;
  let contents := create_contents init_order in
  let indent := "        " in
  out ← call_replace_section out
    (indent +:+ "# __FEATURESET_APP_SUBSYSTEM_CREATE_BEGIN__" +:+ nl)
    (indent +:+ "# __FEATURESET_APP_SUBSYSTEM_CREATE_END__" +:+ nl)
    (textwrap_indent (info +:+ nl +:+ nl +:+ contents +:+ nl) indent)
    true;
  let contents := mode_contents fsets in
  let indent := "            " in
  out ← call_replace_section out
    (indent +:+ "# __DEFAULT_APP_MODE_SELECTION_BEGIN__" +:+ nl)
    (indent +:+ "# __DEFAULT_APP_MODE_SELECTION_END__" +:+ nl)
    (textwrap_indent (info +:+ nl +:+ nl +:+ contents +:+ nl) indent)
    true;
  mret out.

End Generate.

(** ** The expected texts, line by line

    These describe the generated Python text independently of the
    functions that build it. *)

(** The given lines, each ended by a newline. *)
Definition unlines (lines : list string) : string :=
  foldr (λ line rest, line +:+ nl +:+ rest) EmptyString lines.

(** The three double quotes that open and close a docstring. *)
Definition quotes3 : string :=
  Eval cbv in
    String (Ascii.ascii_of_nat 34%nat)
      (String (Ascii.ascii_of_nat 34%nat)
         (String (Ascii.ascii_of_nat 34%nat) EmptyString)).

(** The property of a soft requirement that is not in the project: a
    cached property whose body returns None. *)
Definition unavailable_property_text (fsetname : string) : string :=
  unlines
    [ EmptyString;
      "@cached_property";
      "def " +:+ fsetname +:+ "(self) -> Any | None:";
      "    " +:+ quotes3 +:+ "Our " +:+ fsetname +:+
        " subsystem (not available in this project)." +:+ quotes3;
      EmptyString;
      "    return None" ].

(** The property of a present feature set that may be a soft
    requirement: it returns the subsystem, or None when the import
    fails. *)
Definition optional_property_text (fset : FeatureSet) : string :=
  unlines
    [ EmptyString;
      "@cached_property";
      "def " +:+ name fset +:+ "(self) -> " +:+ name_camel fset +:+
        "Subsystem | None:";
      "    " +:+ quotes3 +:+ "Our " +:+ name fset +:+
        " subsystem (if available)." +:+ quotes3;
      "    # pylint: disable=cyclic-import";
      EmptyString;
      "    try:";
      "        from " +:+ name_python_package fset +:+ " import " +:+
        name_camel fset +:+ "Subsystem";
      EmptyString;
      "        return " +:+ name_camel fset +:+ "Subsystem()";
      "    except ImportError:";
      "        return None";
      "    except Exception:";
      "        logging.exception('Error importing " +:+
        name_python_package fset +:+ ".')";
      "        return None" ].

(** The property of a present feature set that is always available. *)
Definition plain_property_text (fset : FeatureSet) : string :=
  unlines
    [ EmptyString;
      "@cached_property";
      "def " +:+ name fset +:+ "(self) -> " +:+ name_camel fset +:+
        "Subsystem:";
      "    " +:+ quotes3 +:+ "Our " +:+ name fset +:+
        " subsystem (always available)." +:+ quotes3;
      "    # pylint: disable=cyclic-import";
      EmptyString;
      "    from " +:+ name_python_package fset +:+ " import " +:+
        name_camel fset +:+ "Subsystem";
      EmptyString;
      "    return " +:+ name_camel fset +:+ "Subsystem()" ].

(** The creation text for a sequence of names: the comment line, then
    one line [_ = self.<name>] per name, in the order of the
    sequence. *)
Definition poke_text (init_order : list string) : string :=
  unlines
    ("# Poke these attrs to create all our subsystems."
     :: ((λ fsetname, "_ = self." +:+ fsetname) <$> init_order)).

(** What a run of the generator that returned [out] after the calls
    [calls] must look like: four calls of [replace_section], for the
    imports, the properties, the creation sequence and the app mode
    selection, each keeping the markers and each rewriting the result of
    the one before; the creation text pokes the feature sets in the order
    [init_order] computed by the loop. *)
Definition four_rewrites
    (replace_section : string → string → string → string → bool → exn + string)
    (textwrap_indent : string → string → string)
    (fuel : nat) (feature_sets : Py.dict FeatureSet) (existing_data : string)
    (calls : list rs_call) (out : string) : Prop :=
  ∃ out1 out2 out3 properties init_order,
    properties_contents feature_sets = inr properties ∧
    build_init_order fuel
      (Py.filter_values has_python_app_subsystem feature_sets)
      = Some (Returned init_order) ∧
    calls =
      [ {| rs_text := existing_data;
           rs_begin_marker :=
             "    # __FEATURESET_APP_SUBSYSTEM_IMPORTS_BEGIN__" +:+ nl;
           rs_end_marker :=
             "    # __FEATURESET_APP_SUBSYSTEM_IMPORTS_END__" +:+ nl;
           rs_replace_text :=
             textwrap_indent
               (if bool_decide (imports_contents feature_sets = EmptyString)
                then info +:+ nl
                else info +:+ nl +:+ nl +:+
                     imports_contents feature_sets +:+ nl)
               "    ";
           rs_keep_markers := true;
           rs_result := inr out1 |};
        {| rs_text := out1;
           rs_begin_marker :=
             "    # __FEATURESET_APP_SUBSYSTEM_PROPERTIES_BEGIN__" +:+ nl;
           rs_end_marker :=
             "    # __FEATURESET_APP_SUBSYSTEM_PROPERTIES_END__" +:+ nl;
           rs_replace_text :=
             textwrap_indent (info +:+ nl +:+ properties +:+ nl) "    ";
           rs_keep_markers := true;
           rs_result := inr out2 |};
        {| rs_text := out2;
           rs_begin_marker :=
             "        # __FEATURESET_APP_SUBSYSTEM_CREATE_BEGIN__" +:+ nl;
           rs_end_marker :=
             "        # __FEATURESET_APP_SUBSYSTEM_CREATE_END__" +:+ nl;
           rs_replace_text :=
             textwrap_indent
               (info +:+ nl +:+ nl +:+ poke_text init_order +:+ nl)
               "        ";
           rs_keep_markers := true;
           rs_result := inr out3 |};
        {| rs_text := out3;
           rs_begin_marker :=
             "            # __DEFAULT_APP_MODE_SELECTION_BEGIN__" +:+ nl;
           rs_end_marker :=
             "            # __DEFAULT_APP_MODE_SELECTION_END__" +:+ nl;
           rs_replace_text :=
             textwrap_indent
               (info +:+ nl +:+ nl +:+ mode_contents feature_sets +:+ nl)
               "            ";
           rs_keep_markers := true;
           rs_result := inr out |} ] ∧
    Forall (λ c, rs_result c
                 = replace_section (rs_text c) (rs_begin_marker c)
                     (rs_end_marker c) (rs_replace_text c)
                     (rs_keep_markers c)) calls.

(** Stand-ins for the two external functions, to run the generator. *)
Definition sample_replace_section (text begin_marker end_marker
    replace_text : string) (keep_markers : bool) : exn + string :=
  inr (text +:+ begin_marker +:+ replace_text +:+ end_marker).

Definition sample_indent (text prefix : string) : string := prefix +:+ text.

(** ** The section rewriter

    Modelled from the spec: [efrotools.replace_section] is not part of the
    sources at hand.  The definition follows section 4.1 of the design
    text: a document is a sequence of lines, markers are whole lines. *)
Module SectionRewriter.

Inductive error : Type :=
  | MarkerNotFoundError
  | MarkerOrderError.

(** Index of the first line equal to [marker]. *)
Fixpoint first_index (marker : string) (document : list string)
    : option nat :=
  match document with
  | [] => None
  | line :: rest =>
      if decide (line = marker) then Some O
      else S <$> first_index marker rest
  end.

(** [rewrite(document, beginMarker, endMarker, newContent, keepMarkers)]:
    locate the first line equal to [beginMarker] and the first line equal
    to [endMarker] after it; fail if either marker is absent, if the end
    marker only occurs at or before the begin marker, or if no line lies
    between them; otherwise the lines before the begin marker (marker
    included if [keepMarkers]), then [newContent], then the end marker
    (if [keepMarkers]) and the lines after it. *)
Definition rewrite (document : list string) (beginMarker endMarker : string)
    (newContent : list string) (keepMarkers : bool)
    : error + list string :=
  match first_index beginMarker document with
  | None => inl MarkerNotFoundError
  | Some i =>
      if bool_decide (endMarker ∈ document) then
        match first_index endMarker (drop (S i) document) with
        | None => inl MarkerOrderError
        | Some O => inl MarkerOrderError
        | Some (S j) =>
            inr (take i document
                 ++ (if keepMarkers then [beginMarker] else [])
                 ++ newContent
                 ++ (if keepMarkers then [endMarker] else [])
                 ++ drop (S (S j)) (drop (S i) document))
        end
      else inl MarkerNotFoundError
  end.

(** Rewriting the result of a rewrite; an error of the first call is the
    error of the whole. *)
Definition rewrite_twice (document : list string)
    (beginMarker endMarker : string) (newContent : list string)
    (keepMarkers : bool) : error + list string :=
  match rewrite document beginMarker endMarker newContent keepMarkers with
  | inl e => inl e
  | inr document' =>
      rewrite document' beginMarker endMarker newContent keepMarkers
  end.

(** A line occurs exactly once in a document. *)
Definition occurs_once (marker : string) (document : list string) : Prop :=
  length (filter (λ line, line = marker) document) = 1%nat.

End SectionRewriter.

(** ** Notions used to state the properties of the init order *)

(** The dict invariants the generator relies on: keys are unique and
    every feature set is filed under its own name. *)
Definition wf_dict (allsets : Py.dict FeatureSet) : Prop :=
  NoDup (Py.keys allsets) ∧
  ∀ k fset, (k, fset) ∈ allsets → name fset = k.

(** [c] depends on [d], and both are present in the working set. *)
Definition depends_on (allsets : Py.dict FeatureSet) (c d : string) : Prop :=
  ∃ fset, Py.get allsets c = Some fset ∧
          d ∈ python_app_subsystem_dependencies fset ∧
          d ∈ Py.keys allsets.

(** [c] lies on a dependency cycle: it reaches itself along one or more
    dependencies. *)
Definition on_cycle (allsets : Py.dict FeatureSet) (c : string) : Prop :=
  tc (depends_on allsets) c c.

(** No present feature set lies on a cycle. *)
Definition acyclic (allsets : Py.dict FeatureSet) : Prop :=
  ∀ c, ¬ on_cycle allsets c.

(** A chain [c0; c1; ...] in which each name depends on the next. *)
Fixpoint dep_chain (allsets : Py.dict FeatureSet) (l : list string) : Prop :=
  match l with
  | c :: rest =>
      match rest with
      | d :: _ => depends_on allsets c d ∧ dep_chain allsets rest
      | [] => True
      end
  | [] => True
  end.

(** [d] occurs strictly before [c] in [l]. *)
Definition precedes (l : list string) (d c : string) : Prop :=
  ∃ i j : nat, l !! i = Some d ∧ l !! j = Some c ∧ (i < j)%nat.

(** The topological invariant of [init_order]: no name occurs twice, and
    when the name at position [i] was appended, each of its dependencies
    present in the working set was already among the [i] names before. *)
Definition topo_invariant (allsets : Py.dict FeatureSet)
    (init_order : list string) : Prop :=
  NoDup init_order ∧
  ∀ (i : nat) c, init_order !! i = Some c →
    ∀ d, depends_on allsets c d → d ∈ take i init_order.

(** What a call started on [o] leaves behind, whichever way it ends: a
    list that extends [o], keeps the invariant and holds keys only. *)
Definition grows (allsets : Py.dict FeatureSet) (o : list string)
    (out : outcome) : Prop :=
  topo_invariant allsets (order_of out) ∧
  o `prefix_of` order_of out ∧
  (∀ n, n ∈ order_of out → n ∈ Py.keys allsets).

(** The exception raised when the depth bound is exceeded. *)
Definition is_depth_error (e : exn) : Prop :=
  ∃ n, e = RuntimeError (cycle_message n).

(** Two enumerations of the same set. *)
Definition same_set (s t : list string) : Prop := s ≡ₚ t.

(** Two feature sets that agree on everything but the iteration order of
    their sets. *)
Definition same_fset (f g : FeatureSet) : Prop :=
  name f = name g ∧ name_camel f = name_camel g ∧
  name_python_package f = name_python_package g ∧
  has_python_app_subsystem f = has_python_app_subsystem g ∧
  allow_as_soft_requirement f = allow_as_soft_requirement g ∧
  same_set (soft_requirements f) (soft_requirements g) ∧
  same_set (python_app_subsystem_dependencies f)
           (python_app_subsystem_dependencies g).

(** Two dicts that are equal as mappings, whatever order their items were
    inserted in. *)
Definition same_mapping (d1 d2 : Py.dict FeatureSet) : Prop :=
  ∀ k, option_Forall2 same_fset (Py.get d1 k) (Py.get d2 k).

(** The mapping with every dependency name that is not a key removed. *)
Definition prune_fset (allsets : Py.dict FeatureSet) (fset : FeatureSet)
    : FeatureSet :=
  {| name := name fset;
     name_camel := name_camel fset;
     name_python_package := name_python_package fset;
     has_python_app_subsystem := has_python_app_subsystem fset;
     allow_as_soft_requirement := allow_as_soft_requirement fset;
     soft_requirements := soft_requirements fset;
     python_app_subsystem_dependencies :=
       filter (λ d, d ∈ Py.keys allsets)
              (python_app_subsystem_dependencies fset) |}.

Definition prune (allsets : Py.dict FeatureSet) : Py.dict FeatureSet :=
  prod_map id (prune_fset allsets) <$> allsets.

(** ** Checkable certificates

    [wf_dictb] decides [wf_dict].  A ranking certifies that dependency
    chains are short: every present dependency has a smaller rank than its
    dependent, and no rank exceeds [bound]. *)
Definition wf_dictb (allsets : Py.dict FeatureSet) : bool :=
  bool_decide (NoDup (Py.keys allsets)) &&
  forallb (λ item, bool_decide (name item.2 = item.1)) allsets.

Definition rank_of (ranks : Py.dict nat) (c : string) : nat :=
  default O (Py.get ranks c).

Definition ranks_ok (allsets : Py.dict FeatureSet) (ranks : Py.dict nat)
    (bound : nat) : bool :=
  forallb (λ kv, bool_decide (kv.2 ≤ bound)%nat) ranks &&
  forallb
    (λ item,
       forallb
         (λ d, if Py.contains allsets d
               then bool_decide (rank_of ranks d < rank_of ranks item.1)%nat
               else true)
         (python_app_subsystem_dependencies item.2))
    allsets.

(** ** Sample inputs *)

Definition fs (n : string) (deps : list string) : FeatureSet :=
  {| name := n; name_camel := n; name_python_package := "ba" +:+ n;
     has_python_app_subsystem := true; allow_as_soft_requirement := false;
     soft_requirements := []; python_app_subsystem_dependencies := deps |}.

(** The scenario of the design text. *)
Definition sample_sets : Py.dict FeatureSet :=
  [("scene_v1", fs "scene_v1" ["base"]); ("base", fs "base" []);
   ("ui", fs "ui" ["base"])].

Definition sample_ranks : Py.dict nat :=
  [("scene_v1", 1%nat); ("base", 0%nat); ("ui", 1%nat)].

(** Two feature sets requiring each other. *)
Definition cycle_sets : Py.dict FeatureSet :=
  [("a", fs "a" ["b"]); ("b", fs "b" ["a"])].

(** Twelve feature sets, each depending on the next one. *)
Definition chain_sets : Py.dict FeatureSet :=
  [("a", fs "a" ["b"]); ("b", fs "b" ["c"]); ("c", fs "c" ["d"]);
   ("d", fs "d" ["e"]); ("e", fs "e" ["f"]); ("f", fs "f" ["g"]);
   ("g", fs "g" ["h"]); ("h", fs "h" ["i"]); ("i", fs "i" ["j"]);
   ("j", fs "j" ["k"]); ("k", fs "k" ["l"]); ("l", fs "l" [])].

Definition chain_ranks : Py.dict nat :=
  [("a", 11); ("b", 10); ("c", 9); ("d", 8); ("e", 7); ("f", 6);
   ("g", 5); ("h", 4); ("i", 3); ("j", 2); ("k", 1); ("l", 0)]%nat.

(** The same chain next to a two-element cycle. *)
Definition chain_and_cycle_sets : Py.dict FeatureSet :=
  chain_sets ++ [("y", fs "y" ["z"]); ("z", fs "z" ["y"])].

(** A feature set without dependencies next to a two-element cycle. *)
Definition partial_sets : Py.dict FeatureSet :=
  [("y", fs "y" ["z"]); ("base", fs "base" []); ("z", fs "z" ["y"])].

(** The same mapping built twice: the items inserted in another order,
    and the dependency set of [ui] iterated in another order. *)
Definition ui_sets : Py.dict FeatureSet :=
  [("ui", fs "ui" ["scene_v1"; "base"]); ("base", fs "base" []);
   ("scene_v1", fs "scene_v1" ["base"])].

Definition ui_sets_rebuilt : Py.dict FeatureSet :=
  [("scene_v1", fs "scene_v1" ["base"]);
   ("ui", fs "ui" ["base"; "scene_v1"]); ("base", fs "base" [])].

(** A feature set with a dependency outside the working set. *)
Definition dangling_sets : Py.dict FeatureSet :=
  [("scene_v1", fs "scene_v1" ["base"; "classic"]); ("base", fs "base" [])].

(** The document of the rewriting scenario of the design text. *)
Definition scenario_document : list string :=
  ["X"; "BEGIN"; "old"; "END"; "Y"].

(** A working set in which [ui] soft-requires [classic], which is
    absent. *)
Definition soft_sets : Py.dict FeatureSet :=
  [("ui", {| name := "ui"; name_camel := "UI"; name_python_package := "bauiv1";
             has_python_app_subsystem := true;
             allow_as_soft_requirement := true;
             soft_requirements := ["classic"];
             python_app_subsystem_dependencies := ["base"] |});
   ("base", fs "base" [])].

(** A feature set that depends on itself. *)
Definition self_sets : Py.dict FeatureSet :=
  [("base", fs "base" []); ("ui", fs "ui" ["ui"])].

(** A working set with a feature set that has no app subsystem. *)
Definition mixed_sets : Py.dict FeatureSet :=
  [("ui", fs "ui" ["base"; "core"]); ("base", fs "base" []);
   ("core", {| name := "core"; name_camel := "Core";
               name_python_package := "bacore";
               has_python_app_subsystem := false;
               allow_as_soft_requirement := false;
               soft_requirements := [];
               python_app_subsystem_dependencies := [] |})].

(** A stand-in for [replace_section] that finds no marker. *)
Definition failing_replace_section (text begin_marker end_marker
    replace_text : string) (keep_markers : bool) : exn + string :=
  inl (RuntimeError ("Marker not found in text: '" +:+ begin_marker +:+ "'.")).

(** The lines the generator writes for one feature set. *)
Definition import_line (fset : FeatureSet) : string :=
  "from " +:+ name_python_package fset +:+ " import " +:+
  (name_camel fset +:+ "Subsystem") +:+ nl.

Definition poke_line (fsetname : string) : string :=
  "_ = self." +:+ fsetname +:+ nl.

Definition fallback_raise : string :=
  "raise RuntimeError(f'No handler found for" +:+
  " intent {type(intent)}.')" +:+ nl.

(** Thirteen feature sets, each depending on the one before it in name
    order. *)
Definition rising_sets : Py.dict FeatureSet :=
  [("m", fs "m" ["l"]); ("l", fs "l" ["k"]); ("k", fs "k" ["j"]);
   ("j", fs "j" ["i"]); ("i", fs "i" ["h"]); ("h", fs "h" ["g"]);
   ("g", fs "g" ["f"]); ("f", fs "f" ["e"]); ("e", fs "e" ["d"]);
   ("d", fs "d" ["c"]); ("c", fs "c" ["b"]); ("b", fs "b" ["a"]);
   ("a", fs "a" [])].

(** Every present dependency sorts strictly before its dependent. *)
Definition sorted_compatible (allsets : Py.dict FeatureSet) : Prop :=
  ∀ c d, depends_on allsets c d → d ≠ c ∧ String.le d c.

Definition sorted_compatibleb (allsets : Py.dict FeatureSet) : bool :=
  forallb
    (λ item,
       forallb
         (λ d, if Py.contains allsets d
               then bool_decide (d ≠ item.1 ∧ String.le d item.1)
               else true)
         (python_app_subsystem_dependencies item.2))
    allsets.

(** The third call of a run writes the creation text of a sequence that
    holds exactly the names of the feature sets with an app subsystem,
    each once, every dependency that has a subsystem before its
    dependent. *)
Definition pokes_subsystems (textwrap_indent : string → string → string)
    (feature_sets : Py.dict FeatureSet) (calls : list rs_call) : Prop :=
  ∃ init_order c,
    calls !! 2%nat = Some c ∧
    rs_replace_text c
      = textwrap_indent
          (info +:+ nl +:+ nl +:+ create_contents init_order +:+ nl)
          "        " ∧
    NoDup init_order ∧
    (∀ k, k ∈ init_order ↔
          ∃ fset, Py.get feature_sets k = Some fset ∧
                  has_python_app_subsystem fset = true) ∧
    ∀ k fset d depfset,
      Py.get feature_sets k = Some fset →
      has_python_app_subsystem fset = true →
      d ∈ python_app_subsystem_dependencies fset →
      Py.get feature_sets d = Some depfset →
      has_python_app_subsystem depfset = true →
      precedes init_order d k.

(** A two-element cycle one of whose members also depends on a leaf. *)
Definition leaf_cycle_sets : Py.dict FeatureSet :=
  [("m", fs "m" ["n"; "z"]); ("n", fs "n" []); ("z", fs "z" ["m"])].

(** * Properties *)

(** ** Python values *)

Section py_facts.
Context {V : Type}.
Implicit Types (d : Py.dict V) (k : string) (v : V).

Lemma get_Some_elem d k v : Py.get d k = Some v → (k, v) ∈ d.
Proof.
  induction d as [|[k' v'] d IH]; simpl; [done|].
  case_decide; intros ?; simplify_eq; [left | right; auto].
Qed.

Lemma get_None_keys d k : Py.get d k = None ↔ k ∉ Py.keys d.
Proof.
  unfold Py.keys. induction d as [|[k' v'] d IH]; simpl.
  - split; [intros _; apply not_elem_of_nil | done].
  - rewrite not_elem_of_cons. case_decide as Hk.
    + split; [done | intros [? _]; done].
    + rewrite IH. split; [intros ?; split; [congruence | done]|].
      by intros [_ ?].
Qed.

Lemma get_is_Some_keys d k : is_Some (Py.get d k) ↔ k ∈ Py.keys d.
Proof.
  destruct (Py.get d k) eqn:E.
  - split; [intros _ | eauto].
    apply get_Some_elem in E. unfold Py.keys.
    apply list_elem_of_fmap. by exists (k, v).
  - apply get_None_keys in E. split; [intros [? ?]; done | done].
Qed.

Lemma elem_get_Some d k v : NoDup (Py.keys d) → (k, v) ∈ d → Py.get d k = Some v.
Proof.
  unfold Py.keys. induction d as [|[k' v'] d IH]; simpl.
  - intros _ ?%elem_of_nil. done.
  - rewrite NoDup_cons. intros [Hk Hd] [?|Hin]%elem_of_cons; simplify_eq.
    + by rewrite decide_True.
    + rewrite decide_False; [auto|].
      intros ->. apply Hk. apply list_elem_of_fmap. by exists (k, v).
Qed.

Lemma contains_keys d k : Py.contains d k = true ↔ k ∈ Py.keys d.
Proof. unfold Py.contains. apply bool_decide_eq_true. Qed.
End py_facts.

Lemma sorted_perm l : Py.sorted l ≡ₚ l.
Proof. apply merge_sort_Permutation. Qed.

Lemma sorted_elem l x : x ∈ Py.sorted l ↔ x ∈ l.
Proof. by rewrite sorted_perm. Qed.

Lemma sorted_Sorted l : Sorted String.le (Py.sorted l).
Proof. apply (Sorted_merge_sort String.le). Qed.

(** [sorted] does not see the order of its argument. *)
Lemma sorted_same_set s t : same_set s t → Py.sorted s = Py.sorted t.
Proof.
  intros Hst. apply (Sorted_unique String.le); try apply sorted_Sorted.
  by rewrite !sorted_perm.
Qed.

Lemma StronglySorted_filter_list {A} (R : relation A) (P : A → Prop)
    `{∀ x, Decision (P x)} l :
  StronglySorted R l → StronglySorted R (filter P l).
Proof.
  induction 1 as [|x l Hl IH Hx]; [constructor|].
  rewrite filter_cons. case_decide; [|done].
  constructor; [done|].
  apply Forall_forall. intros y [_ Hy]%list_elem_of_filter.
  by eapply Forall_forall in Hx.
Qed.

Lemma sorted_filter (P : string → Prop) `{∀ x, Decision (P x)} l :
  Py.sorted (filter P l) = filter P (Py.sorted l).
Proof.
  apply (Sorted_unique String.le).
  - apply sorted_Sorted.
  - apply StronglySorted_Sorted, StronglySorted_filter_list.
    apply (StronglySorted_merge_sort String.le).
  - by rewrite !sorted_perm.
Qed.

Section sorted_items_facts.
Context {V : Type}.
Implicit Types (d : Py.dict V).

Lemma sorted_items_perm d : Py.sorted_items d ≡ₚ d.
Proof. apply merge_sort_Permutation. Qed.

Lemma item_le_total : Total (@Py.item_le V).
Proof. intros p q. apply (total String.le). Qed.
#[local] Existing Instance item_le_total.

Lemma sorted_items_keys d : (Py.sorted_items d).*1 = Py.sorted (Py.keys d).
Proof.
  apply (Sorted_unique String.le).
  - eapply Sorted_fmap; [|apply (Sorted_merge_sort Py.item_le)]. done.
  - apply sorted_Sorted.
  - unfold Py.keys. by rewrite sorted_perm, sorted_items_perm.
Qed.

(** With unique keys, the sorted items are the sorted keys, each with
    the value filed under it. *)
Lemma sorted_items_by_key d :
  NoDup (Py.keys d) →
  Py.sorted_items d
  = omap (λ k, pair k <$> Py.get d k) (Py.sorted (Py.keys d)).
Proof.
  intros Hnd. rewrite <- sorted_items_keys.
  assert (Hall : ∀ p, p ∈ Py.sorted_items d → Py.get d p.1 = Some p.2).
  { intros [k v] Hin. apply elem_get_Some; [done|].
    by rewrite <- (sorted_items_perm d). }
  induction (Py.sorted_items d) as [|[k v] l IH]; [done|].
  pose proof (Hall (k, v) ltac:(left)) as Hkv. simpl in *.
  rewrite Hkv. simpl. f_equal.
  apply IH. intros p Hp. apply Hall. by right.
Qed.
End sorted_items_facts.

(** ** Loops *)

Section for_each_facts.
Context {A : Type}.
Implicit Types (body : A → list string → option outcome) (xs : list A).

Lemma for_each_ext body1 body2 xs o :
  (∀ x o', x ∈ xs → body1 x o' = body2 x o') →
  for_each body1 xs o = for_each body2 xs o.
Proof.
  revert o. induction xs as [|x xs IH]; intros o Hb; simpl; [done|].
  rewrite <- (Hb x o) by left.
  destruct (body1 x o) as [[o'|e o']|]; try done.
  apply IH. intros y o'' Hy. apply Hb. by right.
Qed.

(** Bodies that agree wherever the first one has a result. *)
Lemma for_each_mono body1 body2 xs o out :
  (∀ x o' out', x ∈ xs → body1 x o' = Some out' → body2 x o' = Some out') →
  for_each body1 xs o = Some out → for_each body2 xs o = Some out.
Proof.
  revert o. induction xs as [|x xs IH]; intros o Hb; simpl; [done|].
  destruct (body1 x o) as [[o'|e o']|] eqn:E; [| |done].
  - rewrite (Hb x o _ ltac:(left) E). apply IH.
    intros y o'' out' Hy. apply Hb. by right.
  - by rewrite (Hb x o _ ltac:(left) E).
Qed.

Lemma for_each_is_Some body xs o :
  (∀ x o', x ∈ xs → is_Some (body x o')) → is_Some (for_each body xs o).
Proof.
  revert o. induction xs as [|x xs IH]; intros o Hb; simpl; [eauto|].
  destruct (Hb x o ltac:(left)) as [[o'|e o'] ->]; [|eauto].
  apply IH. intros y o'' Hy. apply Hb. by right.
Qed.

(** The loop rule: [I done o] is the invariant after the items [done]
    have been processed, [E] what holds when the body raises. *)
Lemma for_each_rule (I : list A → list string → Prop)
    (E : exn → list string → Prop) body xs o out :
  I [] o →
  (∀ done x rest o1 out1,
     xs = done ++ x :: rest → I done o1 → body x o1 = Some out1 →
     match out1 with
     | Returned o2 => I (done ++ [x]) o2
     | Raised e o2 => E e o2
     end) →
  for_each body xs o = Some out →
  match out with
  | Returned o' => I xs o'
  | Raised e o' => E e o'
  end.
Proof.
  intros HI Hbody.
  enough (Hgen : ∀ rest done o,
    xs = done ++ rest → I done o → for_each body rest o = Some out →
    match out with Returned o' => I xs o' | Raised e o' => E e o' end).
  { apply (Hgen xs []); done. }
  induction rest as [|x rest IH]; intros done o1 Hxs Hdone; simpl.
  - intros [= <-]. by rewrite Hxs, app_nil_r.
  - destruct (body x o1) as [[o2|e o2]|] eqn:Eb; [| |done].
    + apply (IH (done ++ [x])).
      * by rewrite <- app_assoc.
      * apply (Hbody done x rest o1 (Returned o2)); done.
    + intros [= <-]. apply (Hbody done x rest o1 (Raised e o2)); done.
Qed.
End for_each_facts.

(** ** Evaluation of [_add_init] *)

Lemma add_init_unfold fuel fset allsets init_order depth :
  _add_init (S fuel) fset allsets init_order depth
  = if bool_decide (depth > 10) then
      Some (Raised (RuntimeError (cycle_message (name fset))) init_order)
    else if bool_decide (name fset ∈ init_order) then
      Some (Returned init_order)
    else
      match
        for_each
          (λ depname init_order,
             match Py.get allsets depname with
             | None => Some (Returned init_order)
             | Some depfset =>
                 _add_init fuel depfset allsets init_order (depth + 1)
             end)
          (Py.sorted (python_app_subsystem_dependencies fset))
          init_order
      with
      | Some (Returned init_order) =>
          if bool_decide (name fset ∈ init_order) then
            Some (Raised AssertionError init_order)
          else
            Some (Returned (init_order ++ [name fset]))
      | r => r
      end.
Proof. reflexivity. Qed.

(** More fuel does not change a result. *)
Lemma add_init_fuel_mono fuel fuel' fset allsets init_order depth out :
  (fuel ≤ fuel')%nat →
  _add_init fuel fset allsets init_order depth = Some out →
  _add_init fuel' fset allsets init_order depth = Some out.
Proof.
  revert fuel' fset init_order depth out.
  induction fuel as [|fuel IH]; intros fuel' fset o depth out Hle; [done|].
  destruct fuel' as [|fuel']; [lia|]. rewrite !add_init_unfold.
  repeat case_bool_decide; try done.
  destruct (for_each _ _ _) as [out1|] eqn:E; [|done].
  eapply for_each_mono in E as ->; [done|].
  intros x o' out' _ Hx. simpl in *.
  destruct (Py.get allsets x); [|done]. apply IH; [lia | done].
Qed.

(** A call at depth [depth] needs at most [12 - depth] nested frames. *)
Lemma add_init_fuel_enough fuel fset allsets init_order depth :
  (Z.to_nat (11 - depth) < fuel)%nat →
  is_Some (_add_init fuel fset allsets init_order depth).
Proof.
  revert fset init_order depth.
  induction fuel as [|fuel IH]; intros fset o depth Hfuel; [lia|].
  rewrite add_init_unfold. repeat case_bool_decide; eauto.
  match goal with |- context [for_each ?b ?xs ?o] =>
    destruct (for_each_is_Some b xs o) as [[o'|e o'] ->] end.
  - intros x o' _. destruct (Py.get allsets x); [|eauto]. apply IH. lia.
  - case_bool_decide; eauto.
  - eauto.
Qed.

Lemma build_init_order_fuel_mono fuel fuel' allsets out :
  (fuel ≤ fuel')%nat →
  build_init_order fuel allsets = Some out →
  build_init_order fuel' allsets = Some out.
Proof.
  intros Hle. unfold build_init_order. apply for_each_mono.
  intros x o out' _. by apply add_init_fuel_mono.
Qed.

Lemma build_init_order_fuel_enough fuel allsets :
  (12 ≤ fuel)%nat → is_Some (build_init_order fuel allsets).
Proof.
  intros Hle. unfold build_init_order. apply for_each_is_Some.
  intros x o _. apply add_init_fuel_enough. simpl. lia.
Qed.

(** ** Well-formed dicts *)

Lemma wf_get_name allsets k fset :
  wf_dict allsets → Py.get allsets k = Some fset → name fset = k.
Proof. intros [_ Hn] Hget. apply Hn. by apply get_Some_elem. Qed.

Lemma wf_item_get allsets item :
  wf_dict allsets → item ∈ Py.sorted_items allsets →
  Py.get allsets (name item.2) = Some item.2.
Proof.
  intros [Hnd Hn] Hin. rewrite sorted_items_perm in Hin.
  destruct item as [k fset]. simpl. rewrite (Hn k fset Hin).
  by apply elem_get_Some.
Qed.

Lemma depends_on_dep allsets fset d :
  Py.get allsets (name fset) = Some fset →
  d ∈ python_app_subsystem_dependencies fset →
  is_Some (Py.get allsets d) →
  depends_on allsets (name fset) d.
Proof.
  intros Hget Hd Hk. exists fset. split_and!; [done..|].
  by apply get_is_Some_keys.
Qed.

(** ** Blocked names

    A set [S] of names outside [init_order] is blocked when each of its
    members depends on a member of [S] or on the feature set being
    visited.  No call can append a member of a blocked set: a visit of a
    member never returns normally, and the only exception that leaves a
    call is the depth error. *)
Section blocked.
Variable allsets : Py.dict FeatureSet.
Hypothesis Hwf : wf_dict allsets.

Lemma add_init_blocked fuel : ∀ (S : string → Prop) fset o depth out,
  Py.get allsets (name fset) = Some fset →
  (∀ p, S p → ∃ q, depends_on allsets p q ∧ (S q ∨ q = name fset)) →
  (∀ p, S p → p ∉ o) →
  _add_init fuel fset allsets o depth = Some out →
  match out with
  | Returned o' => (∀ p, S p → p ∉ o') ∧ ¬ S (name fset)
  | Raised e o' => is_depth_error e ∧ (∀ p, S p → p ∉ o')
  end.
Proof.
  induction fuel as [|fuel IH]; intros S fset o depth out Hget HS Ho; [done|].
  rewrite add_init_unfold.
  case_bool_decide as Hdepth.
  { intros [= <-]. split; [by eexists | done]. }
  case_bool_decide as Hmemo.
  { intros [= <-]. split; [done|]. intros HSz. by apply (Ho _ HSz). }
  set (z := name fset) in *.
  set (S' := λ p, S p ∨ p = z).
  destruct (for_each _ _ _) as [out1|] eqn:Eloop; [|done].
  eapply (for_each_rule
    (λ done o1, (∀ p, S' p → p ∉ o1) ∧
                (∀ y, y ∈ done → is_Some (Py.get allsets y) → ¬ S' y))
    (λ e o1, is_depth_error e ∧ (∀ p, S' p → p ∉ o1))) in Eloop.
  - destruct out1 as [o1|e o1].
    + destruct Eloop as [Hdisj Hdeps].
      assert (HnS : ¬ S z).
      { intros HSz. destruct (HS z HSz) as (q & Hq & HSq).
        destruct Hq as (fset' & Hget' & Hqdep & Hqkey).
        assert (fset' = fset) as -> by congruence.
        apply (Hdeps q); [by apply sorted_elem | by apply get_is_Some_keys|].
        exact HSq. }
      rewrite bool_decide_eq_false_2 by (apply Hdisj; by right).
      intros [= <-]. split; [|done].
      intros p Hp [Hin| ->%list_elem_of_singleton]%elem_of_app; [|done].
      apply (Hdisj p); [by left | done].
    + intros [= <-]. destruct Eloop as [He Hdisj]. split; [done|].
      intros p Hp. apply Hdisj. by left.
  - split; [|by intros y ?%elem_of_nil].
    intros p [Hp| ->]; [by apply Ho | done].
  - intros done x rest o1 out2 Hxs [Hdisj Hdeps] Hbody. simpl in Hbody.
    assert (Hx : x ∈ python_app_subsystem_dependencies fset).
    { apply sorted_elem. rewrite Hxs. apply elem_of_app. right. left. }
    destruct (Py.get allsets x) as [depfset|] eqn:Hgetx.
    + assert (name depfset = x) as Hname by (by eapply wf_get_name).
      apply (IH S') in Hbody; [| by rewrite Hname | | done].
      * destruct out2 as [o2|e o2]; [|done].
        destruct Hbody as [Hdisj2 HnSx]. split; [done|].
        intros y [Hy| ->%list_elem_of_singleton]%elem_of_app Hsome;
          [by apply Hdeps | by rewrite <- Hname].
      * rewrite Hname. intros p [Hp| ->].
        -- destruct (HS p Hp) as (q & Hq & HSq). exists q. split; [done|].
           left. exact HSq.
        -- exists x. split; [|by right].
           apply depends_on_dep; [done | done | by rewrite Hgetx].
    + simplify_eq. split; [done|].
      intros y [Hy| ->%list_elem_of_singleton]%elem_of_app Hsome;
        [by apply Hdeps|].
      rewrite Hgetx in Hsome. by destruct Hsome.
Qed.

(** In particular the assertion of [_add_init] never fails. *)
Lemma add_init_no_assertion_error fuel fset o depth o' :
  Py.get allsets (name fset) = Some fset →
  _add_init fuel fset allsets o depth ≠ Some (Raised AssertionError o').
Proof.
  intros Hget Hrun.
  apply (add_init_blocked fuel (λ _, False)) in Hrun; [|done|by intros ? []..].
  destruct Hrun as [[n Hn] _]. done.
Qed.
End blocked.

(** ** The topological invariant *)

Lemma topo_invariant_nil allsets : topo_invariant allsets [].
Proof. split; [constructor | by intros i c ?]. Qed.

Lemma topo_invariant_prefix allsets l k :
  topo_invariant allsets (l ++ k) → topo_invariant allsets l.
Proof.
  intros [Hnd Hdeps]. split; [by apply NoDup_app in Hnd as [? _]|].
  intros i c Hi d Hd.
  pose proof (lookup_lt_Some _ _ _ Hi) as Hlt.
  specialize (Hdeps i c (lookup_app_l_Some _ _ _ _ Hi) d Hd).
  by rewrite take_app_le in Hdeps by lia.
Qed.

Lemma topo_invariant_snoc allsets l z :
  topo_invariant allsets l → z ∉ l →
  (∀ d, depends_on allsets z d → d ∈ l) →
  topo_invariant allsets (l ++ [z]).
Proof.
  intros [Hnd Hdeps] Hz Hzd. split.
  - apply NoDup_app. split_and!; [done| |apply NoDup_singleton].
    by intros x Hx ->%list_elem_of_singleton.
  - intros i c Hi d Hd.
    destruct (decide (i < length l)%nat) as [Hlt|Hge].
    + rewrite lookup_app_l in Hi by done.
      rewrite take_app_le by lia. by eapply Hdeps.
    + rewrite lookup_app_r in Hi by lia.
      apply list_lookup_singleton_Some in Hi as [Hi <-].
      rewrite take_app_length' by lia. by apply Hzd.
Qed.

Lemma topo_invariant_precedes allsets l c d :
  topo_invariant allsets l → c ∈ l → depends_on allsets c d →
  precedes l d c.
Proof.
  intros [_ Hdeps] [j Hj]%list_elem_of_lookup Hd.
  specialize (Hdeps j c Hj d Hd).
  apply list_elem_of_lookup in Hdeps as [i Hi].
  apply lookup_take_Some in Hi as [Hi Hlt].
  by exists i, j.
Qed.

Lemma grows_same allsets o out :
  order_of out = o → topo_invariant allsets o →
  (∀ n, n ∈ o → n ∈ Py.keys allsets) → grows allsets o out.
Proof. intros Ho ??. unfold grows. by rewrite Ho. Qed.

Section invariant.
Variable allsets : Py.dict FeatureSet.
Hypothesis Hwf : wf_dict allsets.

Lemma add_init_invariant fuel : ∀ fset o depth out,
  Py.get allsets (name fset) = Some fset →
  topo_invariant allsets o →
  (∀ n, n ∈ o → n ∈ Py.keys allsets) →
  _add_init fuel fset allsets o depth = Some out →
  grows allsets o out ∧ ∀ o', out = Returned o' → name fset ∈ o'.
Proof.
  induction fuel as [|fuel IH]; intros fset o depth out Hget Ho Hkeys; [done|].
  rewrite add_init_unfold.
  case_bool_decide as Hdepth.
  { intros [= <-]. split; [by apply grows_same | by intros o' [=]]. }
  case_bool_decide as Hmemo.
  { intros [= <-]. split; [by apply grows_same | by intros o' [= <-]]. }
  set (z := name fset) in *.
  destruct (for_each _ _ _) as [out1|] eqn:Eloop; [|done].
  eapply (for_each_rule
    (λ done o1, grows allsets o (Returned o1) ∧
                (∀ y, y ∈ done → is_Some (Py.get allsets y) → y ∈ o1))
    (λ e o1, grows allsets o (Raised e o1))) in Eloop.
  - destruct out1 as [o1|e o1].
    + destruct Eloop as [(Htopo & Hpre & Hk) Hdeps]. simpl in *.
      case_bool_decide as Hassert.
      { intros [= <-]. split; [by split_and! | by intros o' [=]]. }
      intros [= <-]. split.
      * unfold grows; simpl. split_and!.
        -- apply topo_invariant_snoc; [done..|].
           intros d (fset' & Hget' & Hd & Hdk).
           assert (fset' = fset) as -> by congruence.
           apply Hdeps; [by apply sorted_elem | by apply get_is_Some_keys].
        -- by apply prefix_app_r.
        -- intros n [Hn| ->%list_elem_of_singleton]%elem_of_app;
             [by apply Hk|].
           apply get_is_Some_keys. by rewrite Hget.
      * intros o' [= <-]. apply elem_of_app. right. left.
    + intros [= <-]. split; [done | by intros o' [=]].
  - split; [by apply grows_same | by intros y ?%elem_of_nil].
  - intros done x rest o1 out2 Hxs [(Htopo & Hpre & Hk) Hdeps] Hbody.
    simpl in *.
    destruct (Py.get allsets x) as [depfset|] eqn:Hgetx.
    + assert (name depfset = x) as Hname by (by eapply wf_get_name).
      apply IH in Hbody as [(Htopo2 & Hpre2 & Hk2) Hin];
        [|by rewrite Hname|done..].
      assert (o `prefix_of` order_of out2) by (by etrans).
      destruct out2 as [o2|e o2]; [|by split_and!].
      split; [by split_and!|]. simpl in *.
      intros y [Hy| ->%list_elem_of_singleton]%elem_of_app Hsome.
      * destruct Hpre2 as [k ->]. apply elem_of_app. left. by apply Hdeps.
      * rewrite <- Hname. by apply Hin.
    + simplify_eq. split; [by split_and!|].
      intros y [Hy| ->%list_elem_of_singleton]%elem_of_app Hsome;
        [by apply Hdeps|].
      rewrite Hgetx in Hsome. by destruct Hsome.
Qed.

(** The same for the whole loop: in addition every key has been added
    when the loop ends normally. *)
Lemma build_init_order_invariant fuel out :
  build_init_order fuel allsets = Some out →
  grows allsets [] out ∧
  ∀ o', out = Returned o' → ∀ k, k ∈ Py.keys allsets → k ∈ o'.
Proof.
  unfold build_init_order. intros Hrun.
  eapply (for_each_rule
    (λ done o1, grows allsets [] (Returned o1) ∧
                (∀ item, item ∈ done → name item.2 ∈ o1))
    (λ e o1, grows allsets [] (Raised e o1))) in Hrun.
  - destruct out as [o1|e o1]; [|split; [done | by intros o' [=]]].
    destruct Hrun as [Hgrows Hall]. split; [done|].
    intros o' [= <-] k [[k' fset] [-> Hin]]%list_elem_of_fmap. simpl.
    rewrite <- sorted_items_perm in Hin.
    specialize (Hall _ Hin). simpl in Hall.
    rewrite sorted_items_perm in Hin.
    destruct Hwf as [_ Hn]. by rewrite <- (Hn _ _ Hin).
  - split; [|by intros y ?%elem_of_nil].
    apply grows_same; [done | apply topo_invariant_nil|].
    by intros n ?%elem_of_nil.
  - intros done item rest o1 out1 Hxs [(Htopo & _ & Hk) Hall] Hbody.
    simpl in *.
    apply add_init_invariant in Hbody as [(Htopo2 & Hpre2 & Hk2) Hin];
      [| |done..].
    + destruct out1 as [o2|e o2]; simpl in *.
      * split; [split_and!; [done | apply prefix_nil | done]|].
        intros y [Hy| ->%list_elem_of_singleton]%elem_of_app.
        -- destruct Hpre2 as [k ->]. apply elem_of_app. left. by apply Hall.
        -- by apply Hin.
      * split_and!; [done | apply prefix_nil | done].
    + apply wf_item_get; [done|]. rewrite Hxs.
      apply elem_of_app. right. left.
Qed.
End invariant.

(** ** Dependency chains and the depth bound *)

Lemma dep_chain_cons allsets c d l :
  depends_on allsets c d → dep_chain allsets (d :: l) →
  dep_chain allsets (c :: d :: l).
Proof. intros. by split. Qed.

(** A mapping whose chains are bounded has no cycle: a cycle could be
    followed for ever. *)
Lemma dep_chain_cycle allsets c (n : nat) :
  tc (depends_on allsets) c c →
  ∃ l, dep_chain allsets (c :: l) ∧ (n ≤ length l)%nat.
Proof.
  intros Hc.
  assert (Hstep : ∀ a b, tc (depends_on allsets) a b → ∀ l,
    dep_chain allsets (b :: l) →
    ∃ l', dep_chain allsets (a :: l') ∧ (length l < length l')%nat).
  { induction 1 as [a b Hab|a b b' Hab _ IH]; intros l Hl.
    - exists (b :: l). split; [by apply dep_chain_cons | simpl; lia].
    - destruct (IH l Hl) as (l' & Hl' & Hlen).
      exists (b :: l'). split; [by apply dep_chain_cons | simpl; lia]. }
  induction n as [|n (l & Hl & Hlen)].
  - exists []. split; [done | simpl; lia].
  - destruct (Hstep c c Hc l Hl) as (l' & Hl' & Hlen').
    exists l'. split; [done | lia].
Qed.

Lemma bounded_chains_acyclic allsets (b : nat) :
  (∀ l, dep_chain allsets l → (length l ≤ b)%nat) → acyclic allsets.
Proof.
  intros Hb c Hc.
  destruct (dep_chain_cycle allsets c b Hc) as (l & Hl & Hlen).
  specialize (Hb _ Hl). simpl in Hb. lia.
Qed.

Section depth.
Variable allsets : Py.dict FeatureSet.
Hypothesis Hwf : wf_dict allsets.

(** A visit whose chains fit under the depth bound returns normally. *)
Lemma add_init_bounded fuel : ∀ fset o depth out,
  Py.get allsets (name fset) = Some fset →
  (∀ l, dep_chain allsets (name fset :: l) →
        depth + Z.of_nat (length (name fset :: l)) ≤ 11) →
  _add_init fuel fset allsets o depth = Some out →
  ∃ o', out = Returned o'.
Proof.
  induction fuel as [|fuel IH]; intros fset o depth out Hget Hb Hrun; [done|].
  pose proof Hrun as Hrun0. revert Hrun.
  rewrite add_init_unfold.
  case_bool_decide as Hdepth.
  { specialize (Hb [] I). simpl in Hb. lia. }
  case_bool_decide as Hmemo; [intros [= <-]; eauto|].
  destruct (for_each _ _ _) as [out1|] eqn:Eloop; [|done].
  eapply (for_each_rule (λ _ _, True) (λ _ _, False)) in Eloop; [|done|].
  - destruct out1 as [o1|e o1]; [|done].
    case_bool_decide; intros [= <-]; [|eauto].
    by apply add_init_no_assertion_error in Hrun0.
  - intros done x rest o1 out2 Hxs _ Hbody. simpl in Hbody.
    destruct (Py.get allsets x) as [depfset|] eqn:Hgetx; [|by simplify_eq].
    assert (name depfset = x) as Hname by (by eapply wf_get_name).
    apply IH in Hbody as [o2 ->]; [done | by rewrite Hname|].
    rewrite Hname. intros l Hl.
    assert (Hdep : depends_on allsets (name fset) x).
    { apply depends_on_dep; [done| |by rewrite Hgetx].
      apply sorted_elem. rewrite Hxs. apply elem_of_app. right. left. }
    specialize (Hb (x :: l) (dep_chain_cons _ _ _ _ Hdep Hl)).
    simpl in *. lia.
Qed.

(** When a visit raises, the feature set named by the message ends a
    chain that starts at the visited one and reaches depth 11. *)
Lemma add_init_raised_chain fuel : ∀ fset o depth e o',
  Py.get allsets (name fset) = Some fset →
  depth ≤ 11 →
  _add_init fuel fset allsets o depth = Some (Raised e o') →
  ∃ l n, dep_chain allsets (name fset :: l) ∧
         Z.of_nat (length (name fset :: l)) = 12 - depth ∧
         last (name fset :: l) = Some n ∧
         e = RuntimeError (cycle_message n).
Proof.
  induction fuel as [|fuel IH]; intros fset o depth e o' Hget Hd Hrun; [done|].
  pose proof Hrun as Hrun0. revert Hrun.
  rewrite add_init_unfold.
  case_bool_decide as Hdepth.
  { intros [= <- <-]. exists [], (name fset). simpl. split_and!; [done|lia|done..]. }
  case_bool_decide as Hmemo; [done|].
  destruct (for_each _ _ _) as [out1|] eqn:Eloop; [|done].
  eapply (for_each_rule (λ _ _, True)
    (λ e _, ∃ l n, dep_chain allsets (name fset :: l) ∧
         Z.of_nat (length (name fset :: l)) = 12 - depth ∧
         last (name fset :: l) = Some n ∧
         e = RuntimeError (cycle_message n))) in Eloop; [|done|].
  - destruct out1 as [o1|e1 o1].
    + case_bool_decide; intros [= <- <-].
      by apply add_init_no_assertion_error in Hrun0.
    + by intros [= <- <-].
  - intros done x rest o1 out2 Hxs _ Hbody. simpl in Hbody.
    destruct out2 as [|e2 o2]; [done|].
    destruct (Py.get allsets x) as [depfset|] eqn:Hgetx; [|done].
    assert (name depfset = x) as Hname by (by eapply wf_get_name).
    apply IH in Hbody as (l & n & Hl & Hlen & Hlast & ->);
      [|by rewrite Hname|lia].
    rewrite Hname in *.
    exists (x :: l), n. split_and!; [|simpl in *; lia|done..].
    apply dep_chain_cons; [|done].
    apply depends_on_dep; [done| |by rewrite Hgetx].
    apply sorted_elem. rewrite Hxs. apply elem_of_app. right. left.
Qed.
End depth.

(** ** Certificates *)

Lemma wf_dictb_correct allsets : wf_dictb allsets = true → wf_dict allsets.
Proof.
  unfold wf_dictb. intros [Hnd Hn]%andb_prop. split.
  - by apply bool_decide_eq_true in Hnd.
  - intros k fset Hin. rewrite forallb_forall in Hn.
    apply list_elem_of_In, Hn in Hin. by apply bool_decide_eq_true in Hin.
Qed.

Section ranks.
Variables (allsets : Py.dict FeatureSet) (ranks : Py.dict nat) (bound : nat).
Hypothesis Hok : ranks_ok allsets ranks bound = true.

Lemma rank_of_bound c : (rank_of ranks c ≤ bound)%nat.
Proof.
  apply andb_prop in Hok as [Hb _]. rewrite forallb_forall in Hb.
  unfold rank_of. destruct (Py.get ranks c) as [r|] eqn:E; simpl; [|lia].
  apply get_Some_elem, list_elem_of_In, Hb in E.
  by apply bool_decide_eq_true in E.
Qed.

Lemma rank_of_depends_on c d :
  depends_on allsets c d → (rank_of ranks d < rank_of ranks c)%nat.
Proof.
  intros (fset & Hget & Hd & Hk).
  apply andb_prop in Hok as [_ Hr]. rewrite forallb_forall in Hr.
  apply get_Some_elem, list_elem_of_In, Hr in Hget. simpl in Hget.
  rewrite forallb_forall in Hget.
  apply list_elem_of_In, Hget in Hd.
  apply contains_keys in Hk. rewrite Hk in Hd.
  by apply bool_decide_eq_true in Hd.
Qed.

Lemma ranked_chain c l :
  dep_chain allsets (c :: l) → (length (c :: l) ≤ S (rank_of ranks c))%nat.
Proof.
  revert c. induction l as [|d l IH]; intros c; [simpl; lia|].
  intros [Hcd Hl]. apply IH in Hl. apply rank_of_depends_on in Hcd.
  simpl in *. lia.
Qed.

Lemma ranked_chains_bounded l :
  dep_chain allsets l → (length l ≤ S bound)%nat.
Proof.
  destruct l as [|c l]; [simpl; lia|]. intros Hl%ranked_chain.
  pose proof (rank_of_bound c). lia.
Qed.
End ranks.

(** ** The whole loop *)

Lemma on_cycle_step allsets p :
  on_cycle allsets p → ∃ q, depends_on allsets p q ∧ on_cycle allsets q.
Proof.
  unfold on_cycle. intros Hp. inversion Hp as [? ? Hpp|? q ? Hpq Hqp]; subst.
  - by exists p.
  - exists q. split; [done|]. by eapply tc_r.
Qed.

Lemma two_cycle_on_cycle allsets a b :
  depends_on allsets a b → depends_on allsets b a → on_cycle allsets a.
Proof. intros Hab Hba. by eapply tc_l, tc_once. Qed.

Lemma depends_on_key allsets c d :
  depends_on allsets c d → c ∈ Py.keys allsets ∧ d ∈ Py.keys allsets.
Proof.
  intros (fset & Hget & _ & Hd). split; [|done].
  apply get_is_Some_keys. by rewrite Hget.
Qed.

Lemma dep_chain_last_key allsets c l n :
  dep_chain allsets (c :: l) → l ≠ [] → last (c :: l) = Some n →
  n ∈ Py.keys allsets.
Proof.
  revert c. induction l as [|d l IH]; intros c Hl Hne Hlast; [done|].
  destruct Hl as [Hcd Hl]. destruct l as [|d' l].
  - simpl in Hlast. simplify_eq. by apply depends_on_key in Hcd as [_ ?].
  - by apply (IH d).
Qed.

Section resolution.
Variable allsets : Py.dict FeatureSet.
Hypothesis Hwf : wf_dict allsets.

(** The only exception that leaves the loop is the depth error, and a
    mapping with a cycle never gets through the loop. *)
Lemma build_init_order_blocked fuel out :
  build_init_order fuel allsets = Some out →
  match out with
  | Returned _ => acyclic allsets
  | Raised e _ => is_depth_error e
  end.
Proof.
  unfold build_init_order. intros Hrun.
  eapply (for_each_rule
    (λ done o1, (∀ p, on_cycle allsets p → p ∉ o1) ∧
                (∀ item, item ∈ done → ¬ on_cycle allsets (name item.2)))
    (λ e _, is_depth_error e)) in Hrun.
  - destruct out as [o1|e o1]; [|done].
    destruct Hrun as [_ Hall]. intros c Hc.
    destruct (on_cycle_step _ _ Hc) as (q & [Hkey _]%depends_on_key & _).
    apply list_elem_of_fmap in Hkey as [[k fset] [-> Hin]].
    destruct Hwf as [_ Hn]. pose proof (Hn _ _ Hin) as Hname.
    rewrite <- sorted_items_perm in Hin.
    apply (Hall _ Hin). simpl in *. by rewrite Hname.
  - split; [by intros p _ ?%elem_of_nil | by intros y ?%elem_of_nil].
  - intros done item rest o1 out1 Hxs [Hdisj Hall] Hbody. simpl in Hbody.
    apply (add_init_blocked allsets Hwf fuel (on_cycle allsets))
      in Hbody; [| |  |done].
    + destruct out1 as [o2|e o2]; [|by destruct Hbody].
      destruct Hbody as [Hdisj2 Hn]. split; [done|].
      by intros y [Hy| ->%list_elem_of_singleton]%elem_of_app; [apply Hall|].
    + apply wf_item_get; [done|]. rewrite Hxs.
      apply elem_of_app. right. left.
    + intros p (q & Hpq & Hq)%on_cycle_step. eauto.
Qed.

(** When the loop raises, the message names the end of a chain of
    twelve feature sets. *)
Lemma build_init_order_raised_chain fuel e o :
  build_init_order fuel allsets = Some (Raised e o) →
  ∃ l n, dep_chain allsets l ∧ length l = 12%nat ∧ last l = Some n ∧
         n ∈ Py.keys allsets ∧ e = RuntimeError (cycle_message n).
Proof.
  unfold build_init_order. intros Hrun.
  eapply (for_each_rule (λ _ _, True)
    (λ e _, ∃ l n, dep_chain allsets l ∧ length l = 12%nat ∧
                   last l = Some n ∧ n ∈ Py.keys allsets ∧
                   e = RuntimeError (cycle_message n))) in Hrun; [done..|].
  intros done item rest o1 out1 Hxs _ Hbody. simpl in Hbody.
  destruct out1 as [|e1 o2]; [done|].
  apply add_init_raised_chain in Hbody as (l & n & Hl & Hlen & Hlast & ->);
    [|done| |lia].
  - exists (name item.2 :: l), n. split_and!; [done|lia|done| |done].
    eapply dep_chain_last_key; [done| |done].
    intros ->. simpl in Hlen. lia.
  - apply wf_item_get; [done|]. rewrite Hxs.
    apply elem_of_app. right. left.
Qed.

(** With bounded chains the loop ends normally. *)
Lemma build_init_order_bounded fuel out :
  (∀ l, dep_chain allsets l → (length l ≤ 11)%nat) →
  build_init_order fuel allsets = Some out →
  ∃ o, out = Returned o.
Proof.
  unfold build_init_order. intros Hb Hrun.
  destruct out as [o|e o]; [eauto|exfalso].
  eapply (for_each_rule (λ _ _, True) (λ _ _, False)) in Hrun; [done..|].
  intros done item rest o1 out1 Hxs _ Hbody. simpl in Hbody.
  apply add_init_bounded in Hbody as [o2 ->]; [done..| |].
  - apply wf_item_get; [done|]. rewrite Hxs.
    apply elem_of_app. right. left.
  - intros l Hl%Hb. lia.
Qed.
End resolution.

(** ** Facts about the sample inputs *)

Lemma sample_sets_wf : wf_dict sample_sets.
Proof. by apply wf_dictb_correct. Qed.

Lemma sample_sets_chains l :
  dep_chain sample_sets l → (length l ≤ 11)%nat.
Proof.
  intros Hl. eapply (ranked_chains_bounded _ sample_ranks 1) in Hl; [lia|].
  by vm_compute.
Qed.

Lemma chain_sets_wf : wf_dict chain_sets.
Proof. by apply wf_dictb_correct. Qed.

Lemma chain_sets_acyclic : acyclic chain_sets.
Proof.
  apply (bounded_chains_acyclic _ 12).
  apply (ranked_chains_bounded _ chain_ranks 11). by vm_compute.
Qed.

Lemma chain_and_cycle_sets_wf : wf_dict chain_and_cycle_sets.
Proof. by apply wf_dictb_correct. Qed.

Lemma cycle_sets_wf : wf_dict cycle_sets.
Proof. by apply wf_dictb_correct. Qed.

Lemma partial_sets_wf : wf_dict partial_sets.
Proof. by apply wf_dictb_correct. Qed.

(** A result computed with twelve units of fuel is the result for any
    amount of fuel that gives one. *)
Lemma build_init_order_at_12 allsets out fuel out' :
  build_init_order 12 allsets = Some out →
  build_init_order fuel allsets = Some out' → out' = out.
Proof.
  intros H12 Hfuel. destruct (decide (fuel ≤ 12)%nat).
  - eapply build_init_order_fuel_mono in Hfuel; [|done]. congruence.
  - eapply (build_init_order_fuel_mono _ fuel) in H12; [|lia]. congruence.
Qed.

(** ** Topological validity (C1) *)

(** C1: the loop does not resolve every acyclic mapping.  The twelve
    feature sets of [chain_sets] depend on each other in a line, so the
    mapping is acyclic, yet the visit of the last one happens at depth 11
    and raises the error that reports a dependency cycle; no amount of
    fuel makes the loop return a sequence.  The depth test stands in for
    a cycle test and misfires on this input. *)
Lemma init_order_long_chain_raises :
  wf_dict chain_sets ∧ acyclic chain_sets ∧
  build_init_order 12 chain_sets
    = Some (Raised (RuntimeError (cycle_message "l")) []) ∧
  ∀ fuel order, build_init_order fuel chain_sets ≠ Some (Returned order).
Proof.
  split_and!; [apply chain_sets_wf | apply chain_sets_acyclic | by vm_compute|].
  intros fuel order Hrun.
  eapply build_init_order_at_12 in Hrun; [|by vm_compute]. done.
Qed.

(** Where the depth test cannot misfire the loop does resolve: for
    every well-formed dependency mapping in which no dependency chain
    among present keys has more than eleven members (such a mapping is
    acyclic), the loop over the sorted items returns without error a
    permutation of the key set in which every present dependency of a
    feature set occurs strictly before it. *)
Theorem init_order_topological fuel allsets :
  wf_dict allsets →
  (∀ l, dep_chain allsets l → (length l ≤ 11)%nat) →
  (12 ≤ fuel)%nat →
  ∃ order,
    build_init_order fuel allsets = Some (Returned order) ∧
    order ≡ₚ Py.keys allsets ∧
    ∀ c d, depends_on allsets c d → precedes order d c.
Proof.
  intros Hwf Hb Hfuel.
  destruct (build_init_order_fuel_enough fuel allsets Hfuel) as [out Hrun].
  destruct (build_init_order_bounded _ Hwf _ _ Hb Hrun) as [order ->].
  destruct (build_init_order_invariant _ Hwf _ _ Hrun)
    as [(Htopo & _ & Hkeys) Hall].
  specialize (Hall order eq_refl). simpl in *.
  exists order. split_and!; [done| |].
  - apply NoDup_Permutation; [by destruct Htopo | by destruct Hwf|].
    intros k. split; [apply Hkeys | apply Hall].
  - intros c d Hcd. apply (topo_invariant_precedes allsets); [done| |done].
    apply Hall. by apply depends_on_key in Hcd as [? _].
Qed.

Lemma init_order_topological_witness :
  ∃ order,
    build_init_order 12 sample_sets = Some (Returned order) ∧
    order ≡ₚ Py.keys sample_sets ∧
    ∀ c d, depends_on sample_sets c d → precedes order d c.
Proof.
  apply (init_order_topological 12 sample_sets).
  - apply sample_sets_wf.
  - apply sample_sets_chains.
  - lia.
Defined.

(** ** Cycle detection (C2) *)

(** C2: the error does not always name a feature set of the cycle.
    [chain_and_cycle_sets] contains the cycle between [y] and [z]; the
    loop raises, as it should, but it does so while the chain is
    visited, and the message, which says the named feature set is
    involved, names [l], which lies on no cycle. *)
Lemma init_order_cycle_error_names_outsider :
  wf_dict chain_and_cycle_sets ∧
  depends_on chain_and_cycle_sets "y" "z" ∧
  depends_on chain_and_cycle_sets "z" "y" ∧
  build_init_order 12 chain_and_cycle_sets
    = Some (Raised (RuntimeError (cycle_message "l")) []) ∧
  ¬ on_cycle chain_and_cycle_sets "l".
Proof.
  split_and!; [apply chain_and_cycle_sets_wf | | | by vm_compute |].
  - eexists. split_and!; [by vm_compute | set_solver | set_solver].
  - eexists. split_and!; [by vm_compute | set_solver | set_solver].
  - intros (q & (fset & Hget & Hq & _) & _)%on_cycle_step.
    vm_compute in Hget. simplify_eq. simpl in Hq. by apply elem_of_nil in Hq.
Qed.

(** A long chain is not needed for this.  In [leaf_cycle_sets] the
    feature sets [m] and [z] form a cycle and [m] also depends on the
    leaf [n]; [n] is appended at depth 1, and the visit of [n] made from
    [m] at depth 11 raises although [n] is already in the list, because
    the depth is tested first. *)
Example init_order_cycle_error_names_leaf :
  wf_dict leaf_cycle_sets ∧
  on_cycle leaf_cycle_sets "m" ∧
  build_init_order 12 leaf_cycle_sets
    = Some (Raised (RuntimeError (cycle_message "n")) ["n"]) ∧
  ¬ on_cycle leaf_cycle_sets "n".
Proof.
  split_and!; [by apply wf_dictb_correct | | by vm_compute |].
  - apply (two_cycle_on_cycle _ "m" "z").
    + eexists. split_and!; [by vm_compute | set_solver | set_solver].
    + eexists. split_and!; [by vm_compute | set_solver | set_solver].
  - intros (q & (fset & Hget & Hq & _) & _)%on_cycle_step.
    vm_compute in Hget. simplify_eq. simpl in Hq. by apply elem_of_nil in Hq.
Qed.

(** What does hold for a two-element cycle: in every well-formed
    dependency mapping in which two present feature sets depend on each
    other, the loop raises the RuntimeError whose message reports a
    dependency cycle, and the feature set named in the message is a key
    of the mapping at the end of a chain of twelve successive
    dependencies. *)
Theorem init_order_cycle_raises fuel allsets a b :
  wf_dict allsets →
  depends_on allsets a b → depends_on allsets b a →
  (12 ≤ fuel)%nat →
  ∃ n o l,
    build_init_order fuel allsets
      = Some (Raised (RuntimeError (cycle_message n)) o) ∧
    n ∈ Py.keys allsets ∧
    dep_chain allsets l ∧ length l = 12%nat ∧ last l = Some n.
Proof.
  intros Hwf Hab Hba Hfuel.
  destruct (build_init_order_fuel_enough fuel allsets Hfuel) as [out Hrun].
  pose proof (build_init_order_blocked _ Hwf _ _ Hrun) as Hout.
  destruct out as [o|e o].
  - destruct (Hout a). by eapply two_cycle_on_cycle.
  - destruct (build_init_order_raised_chain _ Hwf _ _ _ Hrun)
      as (l & n & Hl & Hlen & Hlast & Hn & ->).
    by exists n, o, l.
Qed.

Lemma init_order_cycle_raises_witness :
  ∃ n o l,
    build_init_order 12 cycle_sets
      = Some (Raised (RuntimeError (cycle_message n)) o) ∧
    n ∈ Py.keys cycle_sets ∧
    dep_chain cycle_sets l ∧ length l = 12%nat ∧ last l = Some n.
Proof.
  apply (init_order_cycle_raises 12 cycle_sets "a" "b").
  - apply cycle_sets_wf.
  - eexists. split_and!; [by vm_compute | set_solver | set_solver].
  - eexists. split_and!; [by vm_compute | set_solver | set_solver].
  - lia.
Defined.

(** For the mapping of the design text itself the named feature set does
    lie on the cycle. *)
Example init_order_two_cycle :
  build_init_order 12 cycle_sets
    = Some (Raised (RuntimeError (cycle_message "b")) []) ∧
  on_cycle cycle_sets "b".
Proof.
  split; [by vm_compute|]. apply (two_cycle_on_cycle _ "b" "a").
  - eexists. split_and!; [by vm_compute | set_solver | set_solver].
  - eexists. split_and!; [by vm_compute | set_solver | set_solver].
Qed.

(** ** The invariant of [init_order] (C8) *)

(** C8: whichever way the loop ends, by returning or by raising the
    depth error, the list it leaves behind and every list it went
    through on the way (the list only grows by appending, so these are
    its prefixes) satisfy the topological invariant: no name occurs
    twice, and each name was appended when all its dependencies present
    in the working set were already in the list. *)
Theorem init_order_always_topological fuel allsets :
  wf_dict allsets →
  (12 ≤ fuel)%nat →
  ∃ out,
    build_init_order fuel allsets = Some out ∧
    ∀ l, l `prefix_of` order_of out → topo_invariant allsets l.
Proof.
  intros Hwf Hfuel.
  destruct (build_init_order_fuel_enough fuel allsets Hfuel) as [out Hrun].
  exists out. split; [done|]. intros l [k Hk].
  destruct (build_init_order_invariant _ Hwf _ _ Hrun) as [(Htopo & _) _].
  rewrite Hk in Htopo. by eapply topo_invariant_prefix.
Qed.

Lemma init_order_always_topological_witness :
  ∃ out,
    build_init_order 12 partial_sets = Some out ∧
    ∀ l, l `prefix_of` order_of out → topo_invariant partial_sets l.
Proof.
  apply (init_order_always_topological 12 partial_sets).
  - apply partial_sets_wf.
  - lia.
Defined.

(** The loop on [partial_sets] raises with a non-empty list. *)
Example init_order_partial :
  build_init_order 12 partial_sets
    = Some (Raised (RuntimeError (cycle_message "z")) ["base"]).
Proof. by vm_compute. Qed.

(** The same holds for a single call started on any list that satisfies
    the invariant, at any depth. *)
Lemma add_init_keeps_invariant fuel allsets fset init_order depth out :
  wf_dict allsets →
  Py.get allsets (name fset) = Some fset →
  topo_invariant allsets init_order →
  (∀ n, n ∈ init_order → n ∈ Py.keys allsets) →
  _add_init fuel fset allsets init_order depth = Some out →
  init_order `prefix_of` order_of out ∧
  ∀ l, l `prefix_of` order_of out → topo_invariant allsets l.
Proof.
  intros Hwf Hget Ho Hk Hrun.
  destruct (add_init_invariant _ Hwf _ _ _ _ _ Hget Ho Hk Hrun)
    as [(Htopo & Hpre & _) _].
  split; [done|]. intros l [k Hl]. rewrite Hl in Htopo.
  by eapply topo_invariant_prefix.
Qed.

(** ** The assertion (C9) *)

(** C9: in a well-formed working set, a call of [_add_init] on one of
    its feature sets, from any list and at any depth, never fails its
    assertion: given fuel for the frames it may nest, the call either
    returns or raises the depth error.  The same holds for the assertions
    of all the calls nested in it, whose failure would leave through
    it. *)
Theorem add_init_assertion_holds fuel fset allsets init_order depth :
  wf_dict allsets →
  Py.get allsets (name fset) = Some fset →
  (Z.to_nat (11 - depth) < fuel)%nat →
  ∃ out,
    _add_init fuel fset allsets init_order depth = Some out ∧
    match out with
    | Returned init_order' => name fset ∈ init_order'
    | Raised e _ => is_depth_error e ∧ e ≠ AssertionError
    end.
Proof.
  intros Hwf Hget Hfuel.
  destruct (add_init_fuel_enough fuel fset allsets init_order depth Hfuel)
    as [out Hrun].
  exists out. split; [done|]. pose proof Hrun as Hrun'.
  apply (add_init_blocked allsets Hwf fuel (λ _, False)) in Hrun;
    [|done|by intros ? []..].
  destruct out as [o'|e o'].
  - clear Hrun. revert Hrun'. destruct fuel as [|fuel]; [done|].
    rewrite add_init_unfold. repeat case_bool_decide; try done.
    + by intros [= <-].
    + destruct (for_each _ _ _) as [[o1|e1 o1]|]; try done.
      case_bool_decide; [done|]. intros [= <-]. set_solver.
  - destruct Hrun as [[n ->] _]. split; [by eexists | done].
Qed.

Lemma add_init_assertion_holds_witness :
  ∃ out,
    _add_init 12 (fs "a" ["b"]) cycle_sets [] 0 = Some out ∧
    match out with
    | Returned init_order' => name (fs "a" ["b"]) ∈ init_order'
    | Raised e _ => is_depth_error e ∧ e ≠ AssertionError
    end.
Proof.
  apply (add_init_assertion_holds 12 (fs "a" ["b"]) cycle_sets [] 0).
  - apply cycle_sets_wf.
  - by vm_compute.
  - simpl. lia.
Defined.

(** ** Termination (C10) *)

(** C10: [_add_init] terminates on every input: whatever the feature
    set, the working set (cyclic or not), the list and the depth, a call
    at depth [depth] needs no more than [12 - depth] nested frames (one
    when [depth] exceeds 10) to reach its outcome, which is a return or
    an exception; a call at a depth above 10 raises at once, leaving the
    list as it was. *)
Theorem add_init_terminates fset allsets init_order depth :
  ∃ out,
    (∀ fuel, (Z.to_nat (11 - depth) < fuel)%nat →
             _add_init fuel fset allsets init_order depth = Some out) ∧
    (depth > 10 →
     out = Raised (RuntimeError (cycle_message (name fset))) init_order).
Proof.
  destruct (add_init_fuel_enough (S (Z.to_nat (11 - depth))) fset allsets
              init_order depth) as [out Hrun]; [lia|].
  exists out. split.
  - intros fuel Hfuel. eapply add_init_fuel_mono; [|done]. lia.
  - intros Hd. rewrite add_init_unfold in Hrun.
    rewrite bool_decide_eq_true_2 in Hrun by done. congruence.
Qed.

(** ** Loops over looked-up items *)

Lemma for_each_omap {A B} (f1 : string → option A) (f2 : string → option B)
    (body1 : A → list string → option outcome)
    (body2 : B → list string → option outcome) ks o :
  (∀ k o', k ∈ ks →
     match f1 k, f2 k with
     | Some a, Some b => body1 a o' = body2 b o'
     | None, None => True
     | _, _ => False
     end) →
  for_each body1 (omap f1 ks) o = for_each body2 (omap f2 ks) o.
Proof.
  revert o. induction ks as [|k ks IH]; intros o Hks; [done|]. simpl.
  pose proof (Hks k o ltac:(left)) as Hk.
  assert (IH' : ∀ o', for_each body1 (omap f1 ks) o'
                      = for_each body2 (omap f2 ks) o').
  { intros o'. apply IH. intros k' o'' Hk'. apply Hks. by right. }
  destruct (f1 k) as [a|], (f2 k) as [b|]; try done. simpl.
  rewrite Hk. by destruct (body2 b o) as [[o'|e o']|].
Qed.

(** Items on which the body does nothing can be left out. *)
Lemma for_each_filter {A} (P : A → Prop) `{∀ x, Decision (P x)}
    (body : A → list string → option outcome) xs o :
  (∀ x o', x ∈ xs → ¬ P x → body x o' = Some (Returned o')) →
  for_each body (filter P xs) o = for_each body xs o.
Proof.
  revert o. induction xs as [|x xs IH]; intros o Hskip; [done|].
  assert (IH' : ∀ o', for_each body (filter P xs) o' = for_each body xs o').
  { intros o'. apply IH. intros y o'' Hy. apply Hskip. by right. }
  rewrite filter_cons. case_decide as HP; simpl.
  - by destruct (body x o) as [[o'|e o']|].
  - by rewrite (Hskip x o ltac:(left) HP).
Qed.

(** ** Determinism (C3) *)

Lemma same_mapping_keys d1 d2 :
  NoDup (Py.keys d1) → NoDup (Py.keys d2) → same_mapping d1 d2 →
  Py.keys d1 ≡ₚ Py.keys d2.
Proof.
  intros Hnd1 Hnd2 Hsame. apply NoDup_Permutation; [done..|].
  intros k. rewrite <- !get_is_Some_keys. specialize (Hsame k).
  destruct Hsame; split; intros [? ?]; by eauto.
Qed.

Lemma add_init_same_mapping d1 d2 fuel : ∀ f g o depth,
  same_mapping d1 d2 → same_fset f g →
  _add_init fuel f d1 o depth = _add_init fuel g d2 o depth.
Proof.
  induction fuel as [|fuel IH]; intros f g o depth Hsame Hfg; [done|].
  rewrite !add_init_unfold.
  destruct Hfg as (Hname & _ & _ & _ & _ & _ & Hdeps).
  rewrite Hname, (sorted_same_set _ _ Hdeps).
  erewrite for_each_ext; [done|].
  intros x o' _. simpl. destruct (Hsame x) as [f' g' Hfg'|]; [|done].
  by apply IH.
Qed.

(** C3: the order is a function of the mapping alone.  Two dicts that
    are equal as mappings, whatever the order in which their items were
    inserted and whatever the order in which the dependency sets of
    their feature sets are iterated, give the same outcome: both the
    items of the dict and the dependencies of a feature set are visited
    in sorted order. *)
Theorem init_order_deterministic fuel d1 d2 :
  NoDup (Py.keys d1) → NoDup (Py.keys d2) →
  same_mapping d1 d2 →
  build_init_order fuel d1 = build_init_order fuel d2.
Proof.
  intros Hnd1 Hnd2 Hsame. unfold build_init_order.
  rewrite !sorted_items_by_key by done.
  rewrite (sorted_same_set (Py.keys d1) (Py.keys d2))
    by (by apply same_mapping_keys).
  apply for_each_omap. intros k o' _.
  destruct (Hsame k) as [f g Hfg|]; simpl; [|done].
  by apply add_init_same_mapping.
Qed.

(** The traversal order at both branching points is the sorted one. *)
Lemma traversal_sorted (allsets : Py.dict FeatureSet) fset :
  Sorted String.le (Py.sorted_items allsets).*1 ∧
  Sorted String.le (Py.sorted (python_app_subsystem_dependencies fset)).
Proof.
  split; [|apply sorted_Sorted].
  rewrite sorted_items_keys. apply sorted_Sorted.
Qed.

Lemma ui_sets_same_mapping : same_mapping ui_sets ui_sets_rebuilt.
Proof.
  intros k. unfold ui_sets, ui_sets_rebuilt. simpl.
  repeat case_decide; simplify_eq; constructor;
    repeat split; unfold same_set; simpl; try done.
  apply Permutation_swap.
Qed.

Lemma init_order_deterministic_witness :
  build_init_order 12 ui_sets = build_init_order 12 ui_sets_rebuilt.
Proof.
  apply (init_order_deterministic 12 ui_sets ui_sets_rebuilt).
  - by destruct (wf_dictb_correct ui_sets eq_refl).
  - by destruct (wf_dictb_correct ui_sets_rebuilt eq_refl).
  - apply ui_sets_same_mapping.
Defined.

(** ** Absent dependencies (C4) *)

Lemma get_fmap_values {V W} (g : V → W) (d : Py.dict V) k :
  Py.get (prod_map id g <$> d) k = g <$> Py.get d k.
Proof.
  induction d as [|[k' v] d IH]; [done|]. simpl. by case_decide.
Qed.

Lemma keys_fmap_values {V W} (g : V → W) (d : Py.dict V) :
  Py.keys (prod_map id g <$> d) = Py.keys d.
Proof.
  unfold Py.keys. rewrite <- list_fmap_compose. by apply list_fmap_ext.
Qed.

Lemma get_prune allsets k :
  Py.get (prune allsets) k = prune_fset allsets <$> Py.get allsets k.
Proof. apply get_fmap_values. Qed.

Lemma keys_prune allsets : Py.keys (prune allsets) = Py.keys allsets.
Proof. apply keys_fmap_values. Qed.

Lemma add_init_prune allsets fuel : ∀ fset o depth,
  _add_init fuel (prune_fset allsets fset) (prune allsets) o depth
  = _add_init fuel fset allsets o depth.
Proof.
  induction fuel as [|fuel IH]; intros fset o depth; [done|].
  rewrite !add_init_unfold. simpl.
  rewrite sorted_filter.
  match goal with |- context [for_each ?b (filter ?P ?xs) ?o] =>
    rewrite (for_each_filter P b xs o) end.
  - erewrite for_each_ext; [done|].
    intros x o' _. simpl. rewrite get_prune.
    destruct (Py.get allsets x); simpl; [apply IH | done].
  - intros x o' _ Hx. rewrite get_prune.
    apply get_None_keys in Hx. by rewrite Hx.
Qed.

Lemma build_init_order_prune fuel allsets :
  NoDup (Py.keys allsets) →
  build_init_order fuel (prune allsets) = build_init_order fuel allsets.
Proof.
  intros Hnd. unfold build_init_order.
  rewrite !sorted_items_by_key by (by rewrite ?keys_prune).
  rewrite keys_prune.
  apply for_each_omap. intros k o' _. rewrite get_prune.
  destruct (Py.get allsets k); simpl; [apply add_init_prune | done].
Qed.

(** C4: a dependency name that is not a key plays no part in the
    resolution: the loop has the outcome it has on the mapping from which
    every such name has been removed, so an absent dependency is never
    the cause of an error; and whichever way the loop ends, only keys of
    the mapping are in the list. *)
Theorem init_order_ignores_absent fuel allsets :
  wf_dict allsets →
  (12 ≤ fuel)%nat →
  ∃ out,
    build_init_order fuel allsets = Some out ∧
    build_init_order fuel (prune allsets) = Some out ∧
    ∀ n, n ∈ order_of out → n ∈ Py.keys allsets.
Proof.
  intros Hwf Hfuel.
  destruct (build_init_order_fuel_enough fuel allsets Hfuel) as [out Hrun].
  exists out. split_and!; [done| |].
  - rewrite build_init_order_prune; [done | by destruct Hwf].
  - by destruct (build_init_order_invariant _ Hwf _ _ Hrun) as [(_ & _ & ?) _].
Qed.

Lemma init_order_ignores_absent_witness :
  ∃ out,
    build_init_order 12 dangling_sets = Some out ∧
    build_init_order 12 (prune dangling_sets) = Some out ∧
    ∀ n, n ∈ order_of out → n ∈ Py.keys dangling_sets.
Proof.
  apply (init_order_ignores_absent 12 dangling_sets).
  - by apply wf_dictb_correct.
  - lia.
Defined.

Example init_order_dangling :
  build_init_order 12 dangling_sets = Some (Returned ["base"; "scene_v1"]) ∧
  python_app_subsystem_dependencies <$> Py.values (prune dangling_sets)
    = [["base"]; []].
Proof. by vm_compute. Qed.

(** ** The section rewriter (C7) *)

Section rewriter.
Import SectionRewriter.

Lemma first_index_app marker pre post :
  marker ∉ pre →
  first_index marker (pre ++ marker :: post) = Some (length pre).
Proof.
  induction pre as [|line pre IH]; simpl; intros Hpre.
  - by rewrite decide_True.
  - apply not_elem_of_cons in Hpre as [Hne Hpre].
    rewrite decide_False by done. by rewrite IH.
Qed.

Lemma first_index_Some marker document i :
  first_index marker document = Some i →
  document = (take i document ++ marker :: drop (S i) document) ∧
  (marker ∉ take i document) ∧ length (take i document) = i.
Proof.
  revert i. induction document as [|line document IH]; intros i; [done|].
  simpl. case_decide as Hline.
  - intros [= <-]. subst. simpl. split_and!; [done| |done].
    apply not_elem_of_nil.
  - destruct (first_index marker document) as [i'|]; [|done].
    intros [= <-]. destruct (IH i' eq_refl) as (Hdoc & Hpre & Hlen).
    simpl. split_and!; [by rewrite <- Hdoc| |by rewrite Hlen].
    by apply not_elem_of_cons.
Qed.

Lemma drop_after {A} (l k : list A) x :
  drop (S (length l)) (l ++ x :: k) = k.
Proof. induction l as [|y l IH]; [done | apply IH]. Qed.

(** C7, as stated, fails: without [keepMarkers] the first rewrite
    removes the two marker lines, and the second rewrite no longer
    finds them. *)
Lemma rewrite_twice_without_markers :
  occurs_once "BEGIN" scenario_document ∧
  occurs_once "END" scenario_document ∧
  rewrite scenario_document "BEGIN" "END" ["new"] false
    = inr ["X"; "new"; "Y"] ∧
  rewrite_twice scenario_document "BEGIN" "END" ["new"] false
    = inl MarkerNotFoundError.
Proof. by vm_compute. Qed.

(** With [keepMarkers], an empty new content leaves no line between the
    markers, which the second rewrite rejects; and a new content that
    contains the end marker makes the second rewrite stop early. *)
Example rewrite_twice_empty_content :
  rewrite scenario_document "BEGIN" "END" [] true
    = inr ["X"; "BEGIN"; "END"; "Y"] ∧
  rewrite_twice scenario_document "BEGIN" "END" [] true
    = inl MarkerOrderError.
Proof. by vm_compute. Qed.

Example rewrite_twice_marker_in_content :
  rewrite ["BEGIN"; "old"; "END"] "BEGIN" "END" ["new"; "END"; "more"] true
    = inr ["BEGIN"; "new"; "END"; "more"; "END"] ∧
  rewrite_twice ["BEGIN"; "old"; "END"] "BEGIN" "END"
    ["new"; "END"; "more"] true
    = inr ["BEGIN"; "new"; "END"; "more"; "END"; "more"; "END"].
Proof. by vm_compute. Qed.

(** C7, amended: when the markers are kept and the new content is not
    empty and has no line equal to the end marker, rewriting the
    result of a rewrite with the same arguments gives that result
    again; an error of the first rewrite is the error of both.  This
    holds for every document, and so for those in which each marker
    occurs exactly once. *)
Theorem rewrite_idempotent document beginMarker endMarker newContent :
  newContent ≠ [] →
  endMarker ∉ newContent →
  rewrite_twice document beginMarker endMarker newContent true
  = rewrite document beginMarker endMarker newContent true.
Proof.
  intros Hne Hend. unfold rewrite_twice.
  destruct (rewrite document _ _ _ _) as [err|document'] eqn:Hfirst;
    [done|].
  revert Hfirst. unfold rewrite at 1.
  destruct (first_index beginMarker document) as [i|] eqn:Hb; [|done].
  case_bool_decide; [|done].
  destruct (first_index endMarker (drop (S i) document))
    as [[|j]|] eqn:He; [done| |done].
  intros [= <-].
  apply first_index_Some in Hb as (_ & Hpre & Hlen).
  set (pre := take i document) in *.
  set (post := drop (S (S j)) (drop (S i) document)).
  destruct newContent as [|line content]; [done|].
  unfold rewrite.
  rewrite (first_index_app beginMarker pre) by done.
  rewrite bool_decide_eq_true_2 by set_solver.
  rewrite Hlen.
  assert (Hdrop :
    drop (S i) (pre ++ beginMarker :: (line :: content)
                    ++ endMarker :: post)
    = (line :: content) ++ endMarker :: post).
  { rewrite drop_app_ge by lia. rewrite Hlen.
    by replace (S i - i)%nat with 1%nat by lia. }
  rewrite !Hdrop.
  rewrite (first_index_app endMarker (line :: content)) by done.
  cbn [length]. rewrite take_app_length' by done.
  change (S (S (length content))) with (S (length (line :: content))).
  by rewrite drop_after.
Qed.

Lemma rewrite_idempotent_witness :
  rewrite_twice scenario_document "BEGIN" "END" ["new"] true
  = rewrite scenario_document "BEGIN" "END" ["new"] true.
Proof.
  apply (rewrite_idempotent scenario_document "BEGIN" "END" ["new"]).
  - done.
  - by intros ?%list_elem_of_singleton.
Defined.

Lemma first_index_None marker document :
  marker ∉ document → first_index marker document = None.
Proof.
  induction document as [|line document IH]; [done|]. simpl.
  intros [Hne Hrest]%not_elem_of_cons.
  rewrite decide_False by done. by rewrite IH.
Qed.

Lemma occurs_once_after marker document i :
  first_index marker document = Some i → occurs_once marker document →
  marker ∉ drop (S i) document.
Proof.
  intros (Hdoc & _ & _)%first_index_Some Honce Hin.
  unfold occurs_once in Honce. rewrite Hdoc in Honce.
  rewrite filter_app, filter_cons_True, length_app in Honce by done.
  simpl in Honce.
  assert (Hnil : filter (λ line, line = marker) (drop (S i) document) = []).
  { apply length_zero_iff_nil. lia. }
  assert (Hf : marker ∈ filter (λ line, line = marker) (drop (S i) document)).
  { by apply list_elem_of_filter. }
  rewrite Hnil in Hf. by apply elem_of_nil in Hf.
Qed.

(** Without [keepMarkers]: when the begin marker occurs exactly once in
    the document and not in the new content, a rewrite that succeeds
    leaves a document without the begin marker, on which the same
    rewrite fails. *)
Lemma rewrite_twice_markers_removed document beginMarker endMarker
    newContent document' :
  occurs_once beginMarker document →
  beginMarker ∉ newContent →
  rewrite document beginMarker endMarker newContent false = inr document' →
  rewrite document' beginMarker endMarker newContent false
  = inl MarkerNotFoundError.
Proof.
  intros Honce Hcontent. unfold rewrite at 1.
  destruct (first_index beginMarker document) as [i|] eqn:Hb; [|done].
  case_bool_decide; [|done].
  destruct (first_index endMarker (drop (S i) document))
    as [[|j]|] eqn:He; [done| |done].
  intros [= <-]. unfold rewrite. rewrite first_index_None; [done|].
  pose proof (occurs_once_after _ _ _ Hb Honce) as Hafter.
  apply first_index_Some in Hb as (_ & Hpre & _).
  simpl. rewrite !elem_of_app. intros [?|[?|Hd]]; try done.
  by apply subseteq_drop in Hd.
Qed.

(** The scenario of the design text. *)
Example rewrite_scenario :
  rewrite scenario_document "BEGIN" "END" ["new"] true
  = inr ["X"; "BEGIN"; "new"; "END"; "Y"].
Proof. by vm_compute. Qed.
End rewriter.

(** ** Missing soft requirements (C5) *)

Lemma string_app_assoc (a b c : string) : (a +:+ b) +:+ c = a +:+ (b +:+ c).
Proof.
  unfold String.app. induction a as [|ch a IH]; simpl; [done|].
  by rewrite IH.
Qed.

Lemma string_app_empty_r (a : string) : a +:+ EmptyString = a.
Proof.
  unfold String.app. induction a as [|ch a IH]; simpl; [done|].
  by rewrite IH.
Qed.

(** ** The generated texts, line by line *)

Ltac same_text :=
  unfold unlines; cbn [foldr fmap list_fmap];
  rewrite ?string_app_assoc; reflexivity.

Lemma missing_property_text fsetname :
  missing_property fsetname = unavailable_property_text fsetname.
Proof. unfold missing_property, unavailable_property_text. same_text. Qed.

Lemma soft_property_text fset :
  soft_property fset = optional_property_text fset.
Proof. unfold soft_property, optional_property_text. same_text. Qed.

Lemma hard_property_text fset :
  hard_property fset = plain_property_text fset.
Proof. unfold hard_property, plain_property_text. same_text. Qed.

Lemma create_contents_text init_order :
  create_contents init_order = poke_text init_order.
Proof.
  unfold create_contents, poke_text, unlines. cbn [foldr fmap list_fmap].
  f_equal. f_equal.
  induction init_order as [|n l IH]; [done|]. cbn [foldr fmap list_fmap].
  rewrite IH. by rewrite !string_app_assoc.
Qed.

(** ** Sets *)

Lemma set_add_elem s x y : y ∈ Py.set_add s x ↔ y ∈ s ∨ y = x.
Proof.
  unfold Py.set_add. case_bool_decide as Hx.
  - split; [by left | by intros [?| ->]].
  - rewrite elem_of_app, list_elem_of_singleton. done.
Qed.

Lemma set_union_elem s t y : y ∈ Py.set_union s t ↔ y ∈ s ∨ y ∈ t.
Proof.
  unfold Py.set_union. revert s.
  induction t as [|x t IH]; intros s; simpl.
  - split; [by left | by intros [?|?%elem_of_nil]].
  - rewrite IH, set_add_elem, elem_of_cons. tauto.
Qed.

Lemma missing_soft_inner (fsets : Py.dict FeatureSet) softreqs missing y :
  y ∈ missing ∨ (y ∈ softreqs ∧ y ∉ Py.keys fsets) →
  y ∈ foldl (λ missing softreq,
               if Py.contains fsets softreq then missing
               else Py.set_add missing softreq) missing softreqs.
Proof.
  revert missing. induction softreqs as [|x l IH]; intros missing; simpl.
  - by intros [?|[?%elem_of_nil _]].
  - intros [Hy|[[->|Hy]%elem_of_cons Habs]]; apply IH.
    + left. destruct (Py.contains fsets x); [done|].
      apply set_add_elem. by left.
    + left. destruct (Py.contains fsets x) eqn:Hc.
      * by apply contains_keys in Hc.
      * apply set_add_elem. by right.
    + by right.
Qed.

Lemma missing_soft_outer (fsets : Py.dict FeatureSet) l missing y :
  y ∈ missing ∨
  (∃ fset, fset ∈ l ∧ y ∈ soft_requirements fset ∧ y ∉ Py.keys fsets) →
  y ∈ foldl (λ missing fset,
               foldl (λ missing softreq,
                        if Py.contains fsets softreq then missing
                        else Py.set_add missing softreq)
                 missing (soft_requirements fset)) missing l.
Proof.
  revert missing. induction l as [|f l IH]; intros missing; simpl.
  - by intros [?|(? & ?%elem_of_nil & _)].
  - intros [Hy|(fset & [->|Hin]%elem_of_cons & Hsoft & Habs)]; apply IH.
    + left. apply missing_soft_inner. by left.
    + left. apply missing_soft_inner. by right.
    + right. by exists fset.
Qed.

Lemma missing_soft_fset_names_elem fsets fset y :
  fset ∈ Py.values fsets → y ∈ soft_requirements fset →
  y ∉ Py.keys fsets → y ∈ missing_soft_fset_names fsets.
Proof.
  intros Hin Hsoft Habs. apply missing_soft_outer. right. by exists fset.
Qed.

Lemma properties_loop_ok fsets missing fsetnames : ∀ contents,
  (∀ n, n ∈ fsetnames → n ∈ missing ∨ n ∈ Py.keys fsets) →
  ∃ text,
    properties_loop fsets missing fsetnames contents
      = inr (contents +:+ text) ∧
    ∀ n, n ∈ fsetnames → n ∈ missing →
      ∃ pre post, text = pre +:+ missing_property n +:+ post.
Proof.
  induction fsetnames as [|m l IH]; intros contents Hall; simpl.
  - exists EmptyString. split; [|by intros n ?%elem_of_nil].
    by rewrite string_app_empty_r.
  - assert (∃ t, property_for fsets missing m = inr t ∧
                 (m ∈ missing → t = missing_property m)) as (t & -> & Ht).
    { unfold property_for. case_bool_decide as Hm; [by eexists|].
      destruct (Hall m ltac:(left)) as [?|Hk]; [done|].
      apply get_is_Some_keys in Hk as [fset ->].
      destruct (has_python_app_subsystem fset),
        (allow_as_soft_requirement fset); by eexists. }
    destruct (IH (contents +:+ t)) as (text & -> & Htext).
    { intros n Hn. apply Hall. by right. }
    exists (t +:+ text). split; [by rewrite string_app_assoc|].
    intros n [->|Hn]%elem_of_cons Hmiss.
    + exists EmptyString, text. by rewrite Ht.
    + destruct (Htext n Hn Hmiss) as (pre & post & ->).
      exists (t +:+ pre), post. by rewrite string_app_assoc.
Qed.

(** C5: a feature set name that is a soft requirement of a present
    feature set but is itself absent does not make the generation of the
    properties fail (no lookup of it is ever made): the properties text
    is produced and holds, for that name, the lines of
    [unavailable_property_text]: the decorator [@cached_property], the
    definition [def <name>(self) -> Any | None:], its docstring and the
    body [return None]. *)
Theorem missing_soft_requirement_property fsets fset fsetname :
  fset ∈ Py.values fsets →
  fsetname ∈ soft_requirements fset →
  fsetname ∉ Py.keys fsets →
  ∃ pre post,
    properties_contents fsets
      = inr (pre +:+ unavailable_property_text fsetname +:+ post).
Proof.
  intros Hin Hsoft Habs. rewrite <- missing_property_text.
  unfold properties_contents.
  pose proof (missing_soft_fset_names_elem _ _ _ Hin Hsoft Habs) as Hmiss.
  destruct (properties_loop_ok fsets (missing_soft_fset_names fsets)
              (Py.sorted (Py.set_union (missing_soft_fset_names fsets)
                            (Py.keys fsets))) EmptyString)
    as (text & -> & Htext).
  { intros n Hn. rewrite sorted_elem in Hn. by apply set_union_elem in Hn. }
  change (EmptyString +:+ text) with text.
  destruct (Htext fsetname) as (pre & post & ->); [|done|by exists pre, post].
  apply sorted_elem, set_union_elem. by left.
Qed.

Lemma missing_soft_requirement_property_witness :
  ∃ pre post,
    properties_contents soft_sets
      = inr (pre +:+ unavailable_property_text "classic" +:+ post).
Proof.
  apply (missing_soft_requirement_property soft_sets
           {| name := "ui"; name_camel := "UI";
              name_python_package := "bauiv1";
              has_python_app_subsystem := true;
              allow_as_soft_requirement := true;
              soft_requirements := ["classic"];
              python_app_subsystem_dependencies := ["base"] |} "classic").
  - left.
  - left.
  - by apply (bool_decide_unpack _).
Defined.

(** The property generated for a missing soft requirement ends with the
    statement that returns None. *)
Lemma missing_property_returns_None fsetname :
  ∃ head, missing_property fsetname = head +:+ "    return None" +:+ nl.
Proof.
  unfold missing_property. eexists.
  repeat rewrite <- string_app_assoc. reflexivity.
Qed.

(** ** The four rewrites (C6) *)

Section generate.
Variable replace_section :
  string → string → string → string → bool → exn + string.
Variable textwrap_indent : string → string → string.

(** C6: a run of [generate_app_module] that returns a document has
    made exactly four calls of [replace_section], in this order: for
    the imports, the subsystem properties, the creation (poke) sequence
    and the default app mode selection.  The first call rewrites the
    existing document, every later call rewrites the result of the call
    before it, the result of the last call is the document returned,
    and every call keeps the markers.  The text of the third call is
    [poke_text init_order]: after the comment line, one line
    [_ = self.<name>] for each feature set, in the order [init_order]
    computed by the loop on the feature sets that have a subsystem. *)
Theorem generate_app_module_rewrites fuel feature_sets existing_data
    calls out :
  generate_app_module replace_section textwrap_indent fuel feature_sets
    existing_data [] = Some (calls, inr out) →
  four_rewrites replace_section textwrap_indent fuel feature_sets
    existing_data calls out.
Proof.
  unfold four_rewrites, generate_app_module, mbind, gen_bind, mret, gen_ret,
    call_replace_section, gen_lift, gen_init_order.
  cbn beta zeta. intros Hrun.
  repeat match type of Hrun with
  | context [match build_init_order ?f ?d with _ => _ end] =>
      destruct (build_init_order f d) as [[?|? ?]|] eqn:?
  | match ?x with _ => _ end = _ => destruct x eqn:?; try done
  end.
  injection Hrun as <- <-.
  eexists _, _, _, _, _. split_and!; [done..| |].
  - rewrite <- create_contents_text. reflexivity.
  - repeat constructor; simpl; by symmetry.
Qed.

(** Twelve units of fuel are enough for the generator to reach its
    outcome. *)
Lemma generate_app_module_fuel_enough fuel feature_sets existing_data calls :
  (12 ≤ fuel)%nat →
  is_Some (generate_app_module replace_section textwrap_indent fuel
             feature_sets existing_data calls).
Proof.
  intros Hfuel.
  unfold generate_app_module, mbind, gen_bind, mret, gen_ret,
    call_replace_section, gen_lift, gen_init_order.
  cbn beta zeta.
  destruct (build_init_order_fuel_enough fuel
              (Py.filter_values has_python_app_subsystem feature_sets)
              Hfuel) as [[order|e order] ->];
    repeat match goal with
    | |- is_Some (match ?x with _ => _ end) => destruct x
    end; eauto.
Qed.
End generate.

Lemma generate_app_module_rewrites_witness :
  ∃ calls out,
    generate_app_module sample_replace_section sample_indent 12 sample_sets
      "X" [] = Some (calls, inr out) ∧
    four_rewrites sample_replace_section sample_indent 12 sample_sets
      "X" calls out.
Proof.
  eexists _, _. split; [by vm_compute|].
  apply generate_app_module_rewrites. by vm_compute.
Defined.

(** * Further properties of [_add_init] *)

(** A call only ever appends: the list it was given is a prefix of the
    list it leaves, whichever way it ends, and when it returns the
    feature set is in the list. *)
Lemma add_init_extends fuel : ∀ fset allsets o depth out,
  _add_init fuel fset allsets o depth = Some out →
  o `prefix_of` order_of out ∧ ∀ o', out = Returned o' → name fset ∈ o'.
Proof.
  induction fuel as [|fuel IH]; intros fset allsets o depth out; [done|].
  rewrite add_init_unfold.
  case_bool_decide as Hdepth.
  { intros [= <-]. split; [done | by intros o' [=]]. }
  case_bool_decide as Hmemo.
  { intros [= <-]. split; [done | by intros o' [= <-]]. }
  destruct (for_each _ _ _) as [out1|] eqn:Eloop; [|done].
  eapply (for_each_rule (λ _ o1, o `prefix_of` o1)
            (λ _ o1, o `prefix_of` o1)) in Eloop; [|done|].
  - destruct out1 as [o1|e o1].
    + case_bool_decide; intros [= <-].
      * split; [done | by intros o' [=]].
      * split; [by apply prefix_app_r|].
        intros o' [= <-]. apply elem_of_app. right. left.
    + intros [= <-]. split; [done | by intros o' [=]].
  - intros done x rest o1 out2 _ Hpre Hbody. simpl in Hbody.
    destruct (Py.get allsets x) as [depfset|].
    + apply IH in Hbody as [Hpre2 _].
      destruct out2; simpl in *; by etrans.
    + by simplify_eq.
Qed.

(** X: a call never shortens or reorders the list.  Whatever the
    feature set, the working set, the list and the depth, the list left
    by the call, returned or raised, is the list it was given followed by
    the names the call added. *)
Theorem add_init_only_appends fset allsets init_order depth :
  ∃ out added,
    (∀ fuel, (Z.to_nat (11 - depth) < fuel)%nat →
             _add_init fuel fset allsets init_order depth = Some out) ∧
    order_of out = init_order ++ added.
Proof.
  destruct (add_init_fuel_enough (S (Z.to_nat (11 - depth))) fset allsets
              init_order depth) as [out Hrun]; [lia|].
  pose proof Hrun as [[added Hadded] _]%add_init_extends.
  exists out, added. split; [|done].
  intros fuel Hfuel. eapply add_init_fuel_mono; [|done]. lia.
Qed.



(** A feature set whose present dependencies are all in the list already
    is appended directly. *)
Lemma for_each_unchanged {A} (body : A → list string → option outcome) xs o :
  (∀ x, x ∈ xs → body x o = Some (Returned o)) →
  for_each body xs o = Some (Returned o).
Proof.
  induction xs as [|x xs IH]; intros Hb; [done|]. simpl.
  rewrite (Hb x ltac:(left)). apply IH. intros y Hy. apply Hb. by right.
Qed.

Lemma add_init_ready fuel fset allsets o depth :
  (∀ k f, Py.get allsets k = Some f → name f = k) →
  depth < 10 →
  name fset ∉ o →
  (∀ d, d ∈ python_app_subsystem_dependencies fset →
        d ∈ Py.keys allsets → d ∈ o) →
  _add_init (S (S fuel)) fset allsets o depth
  = Some (Returned (o ++ [name fset])).
Proof.
  intros Hnames Hdepth Hfresh Hdeps. rewrite add_init_unfold.
  rewrite bool_decide_eq_false_2 by lia.
  rewrite bool_decide_eq_false_2 by done.
  rewrite for_each_unchanged.
  - by rewrite bool_decide_eq_false_2.
  - intros x Hx. rewrite sorted_elem in Hx. cbn beta.
    destruct (Py.get allsets x) as [depfset|] eqn:Hget; [|done].
    rewrite add_init_unfold.
    rewrite bool_decide_eq_false_2 by lia.
    rewrite bool_decide_eq_true_2; [done|].
    rewrite (Hnames _ _ Hget). apply Hdeps; [done|].
    apply get_is_Some_keys. by rewrite Hget.
Qed.

(** * Further properties of the [init_order] loop *)

Lemma sorted_compatibleb_correct allsets :
  sorted_compatibleb allsets = true → sorted_compatible allsets.
Proof.
  unfold sorted_compatibleb. rewrite forallb_forall.
  intros Hall c d (fset & Hget & Hd & Hk).
  apply get_Some_elem, list_elem_of_In, Hall in Hget. simpl in Hget.
  rewrite forallb_forall in Hget. apply list_elem_of_In, Hget in Hd.
  apply contains_keys in Hk. rewrite Hk in Hd.
  by apply bool_decide_eq_true in Hd.
Qed.

Lemma for_each_cons {A} (body : A → list string → option outcome) x rest o :
  for_each body (x :: rest) o
  = match body x o with
    | Some (Returned o') => for_each body rest o'
    | r => r
    end.
Proof. reflexivity. Qed.

(** X: ties are broken by name.  When every present dependency sorts
    strictly before its dependent, the loop returns the keys in sorted
    order, however long the dependency chains are; two units of fuel
    are enough. *)
Theorem init_order_sorted_when_compatible fuel allsets :
  wf_dict allsets →
  sorted_compatible allsets →
  (2 ≤ fuel)%nat →
  build_init_order fuel allsets = Some (Returned (Py.sorted (Py.keys allsets))).
Proof.
  intros Hwf Hcompat Hfuel.
  destruct fuel as [|[|fuel]]; [lia..|]. clear Hfuel.
  unfold build_init_order. rewrite <- sorted_items_keys.
  assert (Hnd : NoDup (Py.sorted_items allsets).*1).
  { rewrite sorted_items_keys, sorted_perm. by destruct Hwf. }
  assert (Hsorted : StronglySorted String.le (Py.sorted_items allsets).*1).
  { rewrite sorted_items_keys. apply (StronglySorted_merge_sort String.le). }
  enough (Hgen : ∀ rest done,
    Py.sorted_items allsets = done ++ rest →
    for_each
      (λ item init_order,
         _add_init (S (S fuel)) item.2 allsets init_order 0)
      rest done.*1
    = Some (Returned (Py.sorted_items allsets).*1)).
  { by apply (Hgen (Py.sorted_items allsets) []). }
  induction rest as [|item rest IH]; intros done Hitems.
  { by rewrite Hitems, app_nil_r. }
  rewrite for_each_cons. cbn beta.
  assert (Hin : item ∈ Py.sorted_items allsets).
  { rewrite Hitems. apply elem_of_app. right. left. }
  pose proof (wf_item_get _ _ Hwf Hin) as Hget.
  assert (Hname : name item.2 = item.1).
  { destruct Hwf as [_ Hn]. destruct item as [k fset]. apply Hn.
    by rewrite <- (sorted_items_perm allsets). }
  rewrite Hitems, fmap_app, fmap_cons in Hnd, Hsorted.
  rewrite add_init_ready.
  - rewrite Hname. specialize (IH (done ++ [item])).
    rewrite fmap_app in IH. apply IH. by rewrite <- app_assoc.
  - intros k f Hk. by eapply wf_get_name.
  - lia.
  - rewrite Hname. apply NoDup_app in Hnd as (_ & Hnd & _).
    intros Hdone. apply (Hnd _ Hdone). left.
  - intros d Hd Hkey.
    destruct (Hcompat (item.1) d) as [Hne Hle].
    { rewrite <- Hname. apply depends_on_dep; [done..|].
      by apply get_is_Some_keys. }
    assert (d ∈ (Py.sorted_items allsets).*1) as Hdin.
    { rewrite sorted_items_keys. by apply sorted_elem. }
    rewrite Hitems, fmap_app, fmap_cons in Hdin.
    apply elem_of_app in Hdin as [?|[?|Hrest]%elem_of_cons]; [done..|].
    apply StronglySorted_app_1_r in Hsorted.
    apply StronglySorted_cons in Hsorted as [Hall _].
    rewrite Forall_forall in Hall. specialize (Hall d Hrest).
    destruct Hne. by apply (anti_symm String.le).
Qed.

Lemma rising_sets_wf : wf_dict rising_sets.
Proof. by apply wf_dictb_correct. Qed.

Lemma init_order_sorted_when_compatible_witness :
  build_init_order 2 rising_sets
  = Some (Returned (Py.sorted (Py.keys rising_sets))).
Proof.
  apply (init_order_sorted_when_compatible 2 rising_sets).
  - apply rising_sets_wf.
  - by apply sorted_compatibleb_correct.
  - lia.
Defined.

(** X: a cycle of any length is rejected.  In a well-formed mapping in
    which some feature set reaches itself along present dependencies,
    be it through others or by depending on itself, the loop never
    returns an order: it raises the RuntimeError that reports a cycle. *)
Theorem init_order_rejects_cycles fuel allsets c :
  wf_dict allsets →
  on_cycle allsets c →
  (12 ≤ fuel)%nat →
  ∃ n o,
    build_init_order fuel allsets
      = Some (Raised (RuntimeError (cycle_message n)) o) ∧
    n ∈ Py.keys allsets.
Proof.
  intros Hwf Hc Hfuel.
  destruct (build_init_order_fuel_enough fuel allsets Hfuel) as [out Hrun].
  pose proof (build_init_order_blocked _ Hwf _ _ Hrun) as Hout.
  destruct out as [o|e o]; [by destruct (Hout c)|].
  destruct (build_init_order_raised_chain _ Hwf _ _ _ Hrun)
    as (l & n & _ & _ & _ & Hn & ->).
  by exists n, o.
Qed.

Lemma init_order_rejects_cycles_witness :
  ∃ n o,
    build_init_order 12 self_sets
      = Some (Raised (RuntimeError (cycle_message n)) o) ∧
    n ∈ Py.keys self_sets.
Proof.
  apply (init_order_rejects_cycles 12 self_sets "ui").
  - by apply wf_dictb_correct.
  - apply tc_once. eexists. split_and!; [by vm_compute | left | right; left].
  - lia.
Defined.

(** X: whatever the loop returns is right.  If the loop returns a
    sequence for a well-formed mapping, the mapping is acyclic, the
    sequence is a permutation of the key set, and every present
    dependency of a feature set occurs strictly before it; no bound on
    the chains is needed for this. *)
Theorem init_order_returned_sound fuel allsets order :
  wf_dict allsets →
  build_init_order fuel allsets = Some (Returned order) →
  acyclic allsets ∧
  order ≡ₚ Py.keys allsets ∧
  ∀ c d, depends_on allsets c d → precedes order d c.
Proof.
  intros Hwf Hrun.
  pose proof (build_init_order_blocked _ Hwf _ _ Hrun) as Hacyclic.
  destruct (build_init_order_invariant _ Hwf _ _ Hrun)
    as [(Htopo & _ & Hkeys) Hall].
  specialize (Hall order eq_refl). simpl in *. split_and!; [done| |].
  - apply NoDup_Permutation; [by destruct Htopo | by destruct Hwf|].
    intros k. split; [apply Hkeys | apply Hall].
  - intros c d Hcd. apply (topo_invariant_precedes allsets); [done| |done].
    apply Hall. by apply depends_on_key in Hcd as [? _].
Qed.

Lemma init_order_returned_sound_witness :
  acyclic rising_sets ∧
  ["a"; "b"; "c"; "d"; "e"; "f"; "g"; "h"; "i"; "j"; "k"; "l"; "m"]
    ≡ₚ Py.keys rising_sets ∧
  ∀ c d, depends_on rising_sets c d →
    precedes ["a"; "b"; "c"; "d"; "e"; "f"; "g"; "h"; "i"; "j"; "k"; "l"; "m"]
      d c.
Proof.
  apply (init_order_returned_sound 12 rising_sets).
  - apply rising_sets_wf.
  - by vm_compute.
Defined.

(** * Further properties of the generated texts *)

(** ** Missing soft requirements *)

Lemma set_add_NoDup s x : NoDup s → NoDup (Py.set_add s x).
Proof.
  intros Hs. unfold Py.set_add. case_bool_decide as Hx; [done|].
  apply NoDup_app. split_and!; [done| |apply NoDup_singleton].
  by intros y Hy ->%list_elem_of_singleton.
Qed.

Lemma missing_soft_inner_inv (fsets : Py.dict FeatureSet) softreqs missing y :
  y ∈ foldl (λ missing softreq,
               if Py.contains fsets softreq then missing
               else Py.set_add missing softreq) missing softreqs →
  y ∈ missing ∨ (y ∈ softreqs ∧ y ∉ Py.keys fsets).
Proof.
  revert missing. induction softreqs as [|x l IH]; intros missing; simpl.
  - by left.
  - intros [Hy|[Hy Habs]]%IH.
    + destruct (Py.contains fsets x) eqn:Hc; [by left|].
      apply set_add_elem in Hy as [?| ->]; [by left|]. right.
      split; [left|]. intros Hk%contains_keys. congruence.
    + right. split; [by right | done].
Qed.

Lemma missing_soft_inner_NoDup (fsets : Py.dict FeatureSet) softreqs missing :
  NoDup missing →
  NoDup (foldl (λ missing softreq,
                  if Py.contains fsets softreq then missing
                  else Py.set_add missing softreq) missing softreqs).
Proof.
  revert missing. induction softreqs as [|x l IH]; intros missing Hnd; [done|].
  simpl. apply IH. destruct (Py.contains fsets x); [done|].
  by apply set_add_NoDup.
Qed.

Lemma missing_soft_outer_inv (fsets : Py.dict FeatureSet) l missing y :
  y ∈ foldl (λ missing fset,
               foldl (λ missing softreq,
                        if Py.contains fsets softreq then missing
                        else Py.set_add missing softreq)
                 missing (soft_requirements fset)) missing l →
  y ∈ missing ∨
  (∃ fset, fset ∈ l ∧ y ∈ soft_requirements fset ∧ y ∉ Py.keys fsets).
Proof.
  revert missing. induction l as [|f l IH]; intros missing; simpl.
  - by left.
  - intros [Hy|(fset & Hin & Hsoft & Habs)]%IH.
    + apply missing_soft_inner_inv in Hy as [?|[Hsoft Habs]]; [by left|].
      right. exists f. split_and!; [left | done..].
    + right. exists fset. split_and!; [by right | done..].
Qed.

Lemma missing_soft_outer_NoDup (fsets : Py.dict FeatureSet) l missing :
  NoDup missing →
  NoDup (foldl (λ missing fset,
                  foldl (λ missing softreq,
                           if Py.contains fsets softreq then missing
                           else Py.set_add missing softreq)
                    missing (soft_requirements fset)) missing l).
Proof.
  revert missing. induction l as [|f l IH]; intros missing Hnd; [done|].
  simpl. by apply IH, missing_soft_inner_NoDup.
Qed.

Lemma missing_soft_not_key fsets y :
  y ∈ missing_soft_fset_names fsets → y ∉ Py.keys fsets.
Proof.
  by intros [?%elem_of_nil|(fset & _ & _ & Habs)]%missing_soft_outer_inv.
Qed.

(** X: the missing soft requirements are exactly the names that some
    present feature set soft-requires and that are not keys of the
    working set; the collection holds each of them once. *)
Theorem missing_soft_fset_names_spec fsets :
  NoDup (missing_soft_fset_names fsets) ∧
  ∀ y, y ∈ missing_soft_fset_names fsets ↔
       (y ∉ Py.keys fsets) ∧
       ∃ fset, fset ∈ Py.values fsets ∧ y ∈ soft_requirements fset.
Proof.
  split.
  - apply missing_soft_outer_NoDup. constructor.
  - intros y. split.
    + intros [?%elem_of_nil|(fset & Hin & Hsoft & Habs)]%missing_soft_outer_inv;
        [done|]. split; [done | by exists fset].
    + intros [Habs (fset & Hin & Hsoft)].
      by eapply missing_soft_fset_names_elem.
Qed.

(** ** The properties text *)

Lemma properties_loop_blocks fsets missing fsetnames : ∀ contents,
  (∀ n, n ∈ fsetnames → n ∈ missing ∨ n ∈ Py.keys fsets) →
  ∃ text,
    properties_loop fsets missing fsetnames contents
      = inr (contents +:+ text) ∧
    ∀ n, n ∈ fsetnames →
      ∃ block pre post,
        property_for fsets missing n = inr block ∧
        text = pre +:+ block +:+ post.
Proof.
  induction fsetnames as [|m l IH]; intros contents Hall; simpl.
  - exists EmptyString. split; [|by intros n ?%elem_of_nil].
    by rewrite string_app_empty_r.
  - assert (∃ t, property_for fsets missing m = inr t) as [t Ht].
    { unfold property_for. case_bool_decide as Hm; [by eexists|].
      destruct (Hall m ltac:(left)) as [?|Hk]; [done|].
      apply get_is_Some_keys in Hk as [fset ->].
      destruct (has_python_app_subsystem fset),
        (allow_as_soft_requirement fset); by eexists. }
    rewrite Ht.
    destruct (IH (contents +:+ t)) as (text & -> & Htext).
    { intros n Hn. apply Hall. by right. }
    exists (t +:+ text). split; [by rewrite string_app_assoc|].
    intros n [->|Hn]%elem_of_cons.
    + by exists t, EmptyString, text.
    + destruct (Htext n Hn) as (block & pre & post & Hblock & ->).
      exists block, (t +:+ pre), post. by rewrite string_app_assoc.
Qed.

Lemma properties_contents_blocks fsets :
  ∃ text,
    properties_contents fsets = inr text ∧
    ∀ n, n ∈ missing_soft_fset_names fsets ∨ n ∈ Py.keys fsets →
      ∃ block pre post,
        property_for fsets (missing_soft_fset_names fsets) n = inr block ∧
        text = pre +:+ block +:+ post.
Proof.
  unfold properties_contents.
  destruct (properties_loop_blocks fsets (missing_soft_fset_names fsets)
              (Py.sorted (Py.set_union (missing_soft_fset_names fsets)
                            (Py.keys fsets))) EmptyString)
    as (text & -> & Htext).
  { intros n Hn. rewrite sorted_elem in Hn. by apply set_union_elem in Hn. }
  exists text. split; [done|]. intros n Hn. apply Htext.
  by apply sorted_elem, set_union_elem.
Qed.

(** X: the properties loop never fails.  For every working set the
    lookup [fsets[fsetname]] is only made for names that are keys, so no
    KeyError is raised and a text is produced. *)
Theorem properties_contents_never_raises fsets :
  ∃ text, properties_contents fsets = inr text.
Proof.
  destruct (properties_contents_blocks fsets) as (text & Htext & _).
  by exists text.
Qed.

(** X: a present feature set with an app subsystem gets its property.
    When the feature set is allowed as a soft requirement the text holds
    the lines of [optional_property_text]: a cached property of type
    [<Camel>Subsystem | None] that tries the import and returns None when
    it fails.  Otherwise it holds the lines of [plain_property_text]: a
    cached property of type [<Camel>Subsystem] that imports and returns
    the subsystem. *)
Theorem present_subsystem_property fsets fsetname fset :
  Py.get fsets fsetname = Some fset →
  has_python_app_subsystem fset = true →
  ∃ pre post,
    properties_contents fsets
    = inr (pre +:+
           (if allow_as_soft_requirement fset then optional_property_text fset
            else plain_property_text fset) +:+ post).
Proof.
  intros Hget Hss.
  rewrite <- soft_property_text, <- hard_property_text.
  destruct (properties_contents_blocks fsets) as (text & -> & Hblocks).
  assert (Hkey : fsetname ∈ Py.keys fsets).
  { apply get_is_Some_keys. by rewrite Hget. }
  destruct (Hblocks fsetname) as (block & pre & post & Hblock & ->);
    [by right|].
  exists pre, post. revert Hblock. unfold property_for.
  rewrite bool_decide_eq_false_2.
  - rewrite Hget, Hss.
    by destruct (allow_as_soft_requirement fset); intros [= <-].
  - intros Hmiss. by apply missing_soft_not_key in Hmiss.
Qed.

Lemma present_subsystem_property_witness :
  ∃ pre post,
    properties_contents soft_sets
    = inr (pre +:+ plain_property_text (fs "base" []) +:+ post).
Proof.
  apply (present_subsystem_property soft_sets "base" (fs "base" [])).
  - by vm_compute.
  - done.
Defined.

(** X: a present feature set without an app subsystem gets no property:
    its turn in the loop adds nothing to the text. *)
Theorem no_subsystem_no_property fsets fsetname fset :
  Py.get fsets fsetname = Some fset →
  has_python_app_subsystem fset = false →
  property_for fsets (missing_soft_fset_names fsets) fsetname
  = inr EmptyString.
Proof.
  intros Hget Hss. unfold property_for.
  rewrite bool_decide_eq_false_2; [by rewrite Hget, Hss|].
  intros Hmiss. apply missing_soft_not_key in Hmiss.
  apply Hmiss, get_is_Some_keys. by rewrite Hget.
Qed.

Lemma no_subsystem_no_property_witness :
  property_for mixed_sets (missing_soft_fset_names mixed_sets) "core"
  = inr EmptyString.
Proof.
  apply (no_subsystem_no_property mixed_sets "core"
           {| name := "core"; name_camel := "Core";
              name_python_package := "bacore";
              has_python_app_subsystem := false;
              allow_as_soft_requirement := false;
              soft_requirements := [];
              python_app_subsystem_dependencies := [] |}).
  - by vm_compute.
  - done.
Defined.

(** ** The imports text *)

Lemma string_app_not_empty (pre post : string) ch s :
  pre +:+ String ch s +:+ post ≠ EmptyString.
Proof. unfold String.app. by destruct pre. Qed.

Lemma imports_fold items : ∀ contents,
  foldl
    (λ contents (item : string * FeatureSet),
       let fset := item.2 in
       if has_python_app_subsystem fset then
         contents +:+ "from " +:+ name_python_package fset +:+ " import " +:+
           (name_camel fset +:+ "Subsystem") +:+ nl
       else contents)
    contents items
  = contents +:+
    foldr (λ item rest,
             if has_python_app_subsystem item.2
             then import_line item.2 +:+ rest else rest)
      EmptyString items.
Proof.
  induction items as [|item items IH]; intros contents; simpl.
  - by rewrite string_app_empty_r.
  - rewrite IH. destruct (has_python_app_subsystem item.2); [|done].
    unfold import_line. by rewrite !string_app_assoc.
Qed.

Lemma import_lines_contain (items : list (string * FeatureSet)) item :
  item ∈ items → has_python_app_subsystem item.2 = true →
  ∃ pre post,
    foldr (λ item rest,
             if has_python_app_subsystem item.2
             then import_line item.2 +:+ rest else rest)
      EmptyString items
    = pre +:+ import_line item.2 +:+ post.
Proof.
  intros Hin Hss. induction items as [|item' items IH]; simpl.
  - by apply elem_of_nil in Hin.
  - apply elem_of_cons in Hin as [<-|Hin].
    + rewrite Hss. by exists EmptyString; eexists.
    + destruct (IH Hin) as (pre & post & ->).
      destruct (has_python_app_subsystem item'.2).
      * exists (import_line item'.2 +:+ pre), post.
        by rewrite string_app_assoc.
      * by exists pre, post.
Qed.

Lemma import_lines_empty (items : list (string * FeatureSet)) :
  (∀ item, item ∈ items → has_python_app_subsystem item.2 = false) →
  foldr (λ item rest,
           if has_python_app_subsystem item.2
           then import_line item.2 +:+ rest else rest)
    EmptyString items
  = EmptyString.
Proof.
  induction items as [|item items IH]; intros Hall; [done|]. simpl.
  rewrite (Hall item) by left. apply IH. intros i Hi. apply Hall. by right.
Qed.

(** X: every feature set with an app subsystem has its import line in
    the imports text. *)
Theorem imports_contents_line fsets fset :
  fset ∈ Py.values fsets →
  has_python_app_subsystem fset = true →
  ∃ pre post, imports_contents fsets = pre +:+ import_line fset +:+ post.
Proof.
  intros [[k f] [-> Hin]]%list_elem_of_fmap Hss. simpl in *.
  unfold imports_contents. rewrite imports_fold.
  rewrite <- (sorted_items_perm fsets) in Hin.
  destruct (import_lines_contain _ _ Hin Hss) as (pre & post & ->).
  by exists pre, post.
Qed.

Lemma imports_contents_line_witness :
  ∃ pre post,
    imports_contents mixed_sets
    = pre +:+ import_line (fs "base" []) +:+ post.
Proof.
  apply (imports_contents_line mixed_sets (fs "base" [])).
  - right. left.
  - done.
Defined.

(** X: the imports text is empty exactly when no feature set has an app
    subsystem; this is the case in which the generator writes the notice
    line alone into the imports section. *)
Theorem imports_contents_empty fsets :
  imports_contents fsets = EmptyString ↔
  ∀ fset, fset ∈ Py.values fsets → has_python_app_subsystem fset = false.
Proof.
  split.
  - intros Hempty fset Hin.
    destruct (has_python_app_subsystem fset) eqn:Hss; [|done].
    apply list_elem_of_fmap in Hin as [item [-> Hin]].
    rewrite <- (sorted_items_perm fsets) in Hin.
    destruct (import_lines_contain _ _ Hin Hss) as (pre & post & Heq).
    revert Hempty. unfold imports_contents. rewrite imports_fold, Heq.
    change (EmptyString +:+ ?x) with x. unfold import_line.
    rewrite string_app_assoc. intros Hbad.
    by apply (string_app_not_empty pre) in Hbad.
  - intros Hall. unfold imports_contents. rewrite imports_fold.
    rewrite import_lines_empty; [done|].
    intros item Hin. apply Hall. rewrite sorted_items_perm in Hin.
    apply list_elem_of_fmap. by exists item.
Qed.

(** ** The creation text *)

(** X: the creation text pokes every name of [init_order]. *)
Theorem create_contents_pokes init_order fsetname :
  fsetname ∈ init_order →
  ∃ pre post,
    create_contents init_order = pre +:+ poke_line fsetname +:+ post.
Proof.
  intros Hin. unfold create_contents.
  enough (∃ pre post,
    foldr (λ fsetname rest, ("_ = self." +:+ fsetname +:+ nl) +:+ rest)
      EmptyString init_order
    = pre +:+ poke_line fsetname +:+ post) as (pre & post & ->).
  { exists ("# Poke these attrs to create all our subsystems." +:+ nl +:+ pre),
      post.
    by rewrite 2!string_app_assoc. }
  induction init_order as [|n l IH]; simpl.
  - by apply elem_of_nil in Hin.
  - apply elem_of_cons in Hin as [<-|Hin].
    + by exists EmptyString; eexists.
    + destruct (IH Hin) as (pre & post & ->).
      exists (("_ = self." +:+ n +:+ nl) +:+ pre), post.
      by rewrite (string_app_assoc _ pre).
Qed.

Lemma create_contents_pokes_witness :
  ∃ pre post,
    create_contents ["base"; "scene_v1"; "ui"]
    = pre +:+ poke_line "scene_v1" +:+ post.
Proof.
  apply (create_contents_pokes ["base"; "scene_v1"; "ui"] "scene_v1").
  right. left.
Defined.

(** * Further properties of [generate_app_module] *)

Lemma filter_values_elem {V} (p : V → bool) (d : Py.dict V) item :
  item ∈ Py.filter_values p d ↔ item ∈ d ∧ p item.2 = true.
Proof.
  unfold Py.filter_values. rewrite !list_elem_of_In. apply filter_In.
Qed.

Lemma filter_values_keys_NoDup {V} (p : V → bool) (d : Py.dict V) :
  NoDup (Py.keys d) → NoDup (Py.keys (Py.filter_values p d)).
Proof.
  unfold Py.keys, Py.filter_values.
  induction d as [|[k v] d IH]; simpl; [done|].
  rewrite NoDup_cons. intros [Hk Hd]. destruct (p v); simpl; [|by apply IH].
  apply NoDup_cons. split; [|by apply IH].
  intros [item [-> Hin]]%list_elem_of_fmap. apply Hk.
  apply list_elem_of_In, filter_In in Hin as [Hin _].
  apply list_elem_of_fmap. exists item. by rewrite list_elem_of_In.
Qed.

Lemma wf_filter_values p allsets :
  wf_dict allsets → wf_dict (Py.filter_values p allsets).
Proof.
  intros [Hnd Hn]. split; [by apply filter_values_keys_NoDup|].
  intros k fset [Hin _]%filter_values_elem. by apply Hn.
Qed.

Lemma get_filter_values {V} (p : V → bool) (d : Py.dict V) k v :
  NoDup (Py.keys d) →
  Py.get (Py.filter_values p d) k = Some v ↔
  Py.get d k = Some v ∧ p v = true.
Proof.
  intros Hnd. split.
  - intros [Hin Hp]%get_Some_elem%filter_values_elem.
    split; [by apply elem_get_Some | done].
  - intros [Hget Hp]. apply elem_get_Some; [by apply filter_values_keys_NoDup|].
    apply filter_values_elem. split; [by apply get_Some_elem | done].
Qed.

Section generate_more.
Variable replace_section :
  string → string → string → string → bool → exn + string.
Variable textwrap_indent : string → string → string.

Ltac run_generator Hrun :=
  unfold generate_app_module, mbind, gen_bind, mret, gen_ret,
    call_replace_section, gen_lift, gen_init_order in Hrun;
  cbn beta zeta in Hrun;
  repeat match type of Hrun with
  | context [match build_init_order ?f ?d with _ => _ end] =>
      destruct (build_init_order f d) as [[?|? ?]|] eqn:?
  | match ?x with _ => _ end = _ => destruct x eqn:?; try done
  end.

(** A run that returns a document has the shape [four_rewrites]. *)
Lemma generate_app_module_run fuel feature_sets existing_data calls out :
  generate_app_module replace_section textwrap_indent fuel feature_sets
    existing_data [] = Some (calls, inr out) →
  four_rewrites replace_section textwrap_indent fuel feature_sets
    existing_data calls out.
Proof.
  intros Hrun. run_generator Hrun.
  injection Hrun as <- <-. unfold four_rewrites.
  eexists _, _, _, _, _. split_and!; [done..| |].
  - rewrite <- create_contents_text. reflexivity.
  - repeat constructor; simpl; by symmetry.
Qed.

(** X: the errors of the generator.  When a run on a well-formed
    working set raises, at most four calls of [replace_section] were
    made, and the exception is either the one raised by the last of
    these calls, or the dependency-cycle RuntimeError of the
    [init_order] loop, raised after the imports and the properties
    have been rewritten and before any other call; the generator
    raises no KeyError and no AssertionError of its own. *)
Theorem generate_app_module_errors fuel feature_sets existing_data
    calls e :
  wf_dict feature_sets →
  generate_app_module replace_section textwrap_indent fuel feature_sets
    existing_data [] = Some (calls, inl e) →
  (length calls ≤ 4)%nat ∧
  ((∃ c, last calls = Some c ∧ rs_result c = inl e) ∨
   (is_depth_error e ∧ length calls = 2%nat)).
Proof.
  intros Hwf Hrun. run_generator Hrun; injection Hrun as <- <-;
    try (destruct (properties_contents_blocks feature_sets)
           as (text & Htext & _); congruence);
    (split; [simpl; lia|]);
    first
      [ left; eexists; split; reflexivity
      | right; split; [|done];
        eapply (build_init_order_blocked _ (wf_filter_values _ _ Hwf)
                  _ (Raised _ _)); eassumption ].
Qed.

(** X: no document on a cycle.  When the feature sets that have an app
    subsystem depend on each other in a cycle, no run of the generator
    returns a document. *)
Theorem generate_app_module_rejects_cycles fuel feature_sets existing_data
    c calls out :
  wf_dict feature_sets →
  on_cycle (Py.filter_values has_python_app_subsystem feature_sets) c →
  generate_app_module replace_section textwrap_indent fuel feature_sets
    existing_data [] ≠ Some (calls, inr out).
Proof.
  intros Hwf Hc Hrun.
  apply generate_app_module_run in Hrun
    as (out1 & out2 & out3 & properties & order & _ & Hloop & _).
  apply (build_init_order_blocked _ (wf_filter_values _ _ Hwf)) in Hloop.
  by apply (Hloop c).
Qed.

(** X: what gets poked.  In a run on a well-formed working set that
    returns a document, the third rewrite writes the creation text of
    a sequence that holds exactly the names of the feature sets that
    have an app subsystem, each once, with every dependency that has a
    subsystem before its dependent. *)
Theorem generate_app_module_pokes fuel feature_sets existing_data
    calls out :
  wf_dict feature_sets →
  generate_app_module replace_section textwrap_indent fuel feature_sets
    existing_data [] = Some (calls, inr out) →
  pokes_subsystems textwrap_indent feature_sets calls.
Proof.
  intros Hwf Hrun.
  apply generate_app_module_run in Hrun
    as (out1 & out2 & out3 & properties & order & _ & Hloop & -> & _).
  pose proof (wf_filter_values has_python_app_subsystem _ Hwf) as Hwf'.
  destruct (build_init_order_invariant _ Hwf' _ _ Hloop)
    as [(Htopo & _ & Hkeys) Hall].
  specialize (Hall order eq_refl). simpl in *.
  assert (Hnd : NoDup (Py.keys feature_sets)) by (by destruct Hwf).
  unfold pokes_subsystems.
  eexists order, _.
  split_and!; [done | simpl; by rewrite create_contents_text
              | by destruct Htopo | |].
  - intros k. split.
    + intros [fset Hget]%Hkeys%get_is_Some_keys.
      exists fset. by apply get_filter_values in Hget.
    + intros (fset & Hget & Hss). apply Hall, get_is_Some_keys.
      exists fset. by apply get_filter_values.
  - intros k fset d depfset Hget Hss Hd Hgetd Hssd.
    apply (topo_invariant_precedes _ _ _ _ Htopo).
    + apply Hall, get_is_Some_keys. exists fset. by apply get_filter_values.
    + exists fset. split_and!; [by apply get_filter_values | done|].
      apply get_is_Some_keys. exists depfset. by apply get_filter_values.
Qed.
End generate_more.

Lemma generate_app_module_errors_witness :
  ∃ calls e,
    generate_app_module sample_replace_section sample_indent 12 cycle_sets
      "X" [] = Some (calls, inl e) ∧
    (length calls ≤ 4)%nat ∧
    ((∃ c, last calls = Some c ∧ rs_result c = inl e) ∨
     (is_depth_error e ∧ length calls = 2%nat)).
Proof.
  eexists _, _. split; [by vm_compute|].
  apply (generate_app_module_errors sample_replace_section sample_indent 12
           cycle_sets "X").
  - apply cycle_sets_wf.
  - by vm_compute.
Defined.

(** With a [replace_section] that finds no marker the run stops at the
    first call. *)
Example generate_app_module_missing_marker :
  ∃ c e,
    generate_app_module failing_replace_section sample_indent 12 sample_sets
      "X" [] = Some ([c], inl (RuntimeError e)).
Proof. eexists _, _. by vm_compute. Qed.

Lemma generate_app_module_rejects_cycles_witness :
  generate_app_module sample_replace_section sample_indent 12 cycle_sets
    "X" [] ≠ Some ([], inr "X").
Proof.
  apply (generate_app_module_rejects_cycles sample_replace_section
           sample_indent 12 cycle_sets "X" "a").
  - apply cycle_sets_wf.
  - apply (two_cycle_on_cycle _ "a" "b").
    + eexists. split_and!; [by vm_compute | left | right; left].
    + eexists. split_and!; [by vm_compute | left | left].
Defined.

Lemma generate_app_module_pokes_witness :
  ∃ calls out,
    generate_app_module sample_replace_section sample_indent 12 mixed_sets
      "X" [] = Some (calls, inr out) ∧
    pokes_subsystems sample_indent mixed_sets calls.
Proof.
  eexists _, _. split; [by vm_compute|].
  eapply (generate_app_module_pokes sample_replace_section sample_indent 12
            mixed_sets "X").
  - by apply wf_dictb_correct.
  - by vm_compute.
Defined.

(** The run on [mixed_sets] pokes [base] and [ui] and leaves out [core],
    which has no subsystem. *)
Example mixed_sets_init_order :
  build_init_order 12 (Py.filter_values has_python_app_subsystem mixed_sets)
  = Some (Returned ["base"; "ui"]).
Proof. by vm_compute. Qed.
